(** * A shallow embedding of package [ws] (golang-websocket-impl)

    The development follows the Go source: the handshake ([Upgrade],
    [hashKey]), the frame header builder ([getDataFrame]) and the
    connection wrapper ([connImpl] with [Read], [Write], [Close]).

    Conventions.
    - A Go [byte] is a [Z] in [0, 256); the conversion [byte(x)] is
      [byte_of].  A Go [int] is a 64-bit two's-complement integer, the
      wrap-around of a left shift is [int_of].
    - A slice is a [list Z]; the nil slice of the [buffer] field is
      [None].  [make] panics for a length that is negative or above
      [maxAlloc], the limit of the runtime (2^48 bytes on 64-bit
      platforms); below that limit memory is not bounded.
    - [c.rw] is a [*bufio.ReadWriter] of the standard library.  Its
      operations are the class [Transport]; [Read] on it may return fewer
      bytes than asked for, as [bufio.Reader.Read] may.  An in-memory
      double is [mem.memConn].
    - The method [Read] is cut in three along its source: [readFrames] is
      the [for] loop, [readData] the text/binary case, [readLength] the
      two branches on the extended length.  The loop is bounded by a fuel
      argument; [None] means that it is still running when the fuel is
      spent.
    - [crypto/sha1], [encoding/base64] and the parts of [net/http] that
      [Upgrade] calls are modelled after their specifications. *)

From Stdlib Require Import ZArith String Ascii List Lia.
From stdpp Require Import base numbers option list strings gmap.

Local Open Scope Z_scope.

(** ** Machine integers and slices *)

Module Go.

(** [byte(x)]: truncation to 8 bits. *)
Definition byte_of (x : Z) : Z := x mod 256.

(** Wrap-around of a 64-bit signed [int]. *)
Definition int_of (x : Z) : Z := (x + 2 ^ 63) mod 2 ^ 64 - 2 ^ 63.

Definition is_byte (b : Z) : Prop := 0 <= b < 256.

(** [len(s)] as an [int]. *)
Definition len (s : list Z) : Z := Z.of_nat (length s).

(** [make([]byte, n)] for [0 <= n]: [n] zero bytes. *)
Definition make (n : Z) : list Z := replicate (Z.to_nat n) 0.

(** The largest allocation of the runtime, in bytes: [make([]byte, n)]
    panics with "makeslice: len out of range" for [n < 0] and for
    [n > maxAlloc]. *)
Definition maxAlloc : Z := 2 ^ 48.

(** [copy(dst, src)]: the updated destination and the number of bytes
    copied, [min(len(dst), len(src))]. *)
Definition copy (dst src : list Z) : list Z * Z :=
  let n := Nat.min (length dst) (length src) in
  (take n src ++ drop n dst, Z.of_nat n).

(** [s[n:]] for [0 <= n <= len(s)]. *)
Definition slice_from (s : list Z) (n : Z) : list Z := drop (Z.to_nat n) s.

(** [[]byte(s)]: the bytes of a string. *)
Fixpoint bytes_of_string (s : string) : list Z :=
  match s with
  | EmptyString => []
  | String a s' => Z.of_N (N_of_ascii a) :: bytes_of_string s'
  end.

(** The values of type [error] that occur: [errors.New(msg)]. *)
Inductive error : Type := errors_New (msg : string).

(** The result of a call: it returns, or the goroutine panics. *)
Inductive outcome (A : Type) : Type :=
| Return (a : A)
| Panic (msg : string).
Arguments Return {A} a.
Arguments Panic {A} msg.

End Go.
Import Go.

(** ** Standard-library functions used by the handshake *)

(** [crypto/sha1]: the SHA-1 digest, following FIPS 180-4 on 32-bit words
    held in [Z]. *)
Module sha1.

Definition w32 (x : Z) : Z := x mod 2 ^ 32.

Definition rotl (n x : Z) : Z :=
  w32 (Z.lor (Z.shiftl x n) (Z.shiftr x (32 - n))).

(** The [n] low bytes of [x], most significant first. *)
Fixpoint be_bytes (n : nat) (x : Z) : list Z :=
  match n with
  | O => []
  | S n' => byte_of (Z.shiftr x (8 * Z.of_nat n')) :: be_bytes n' x
  end.

(** Big-endian 32-bit words of a byte sequence. *)
Fixpoint be_words (bs : list Z) : list Z :=
  match bs with
  | a :: b :: c :: d :: rest =>
      Z.lor (Z.lor (Z.lor (Z.shiftl a 24) (Z.shiftl b 16)) (Z.shiftl c 8)) d
      :: be_words rest
  | _ => []
  end.

(** Padding: the bit 1, zeros up to 56 modulo 64, the bit length on 8
    bytes. *)
Definition pad (msg : list Z) : list Z :=
  let l := len msg in
  msg ++ [0x80] ++ make ((55 - l) mod 64) ++ be_bytes 8 (8 * l).

(** The message schedule, newest word first: [extend n r] adds [n] words
    to the reversed schedule [r]. *)
Fixpoint extend (n : nat) (r : list Z) : list Z :=
  match n with
  | O => r
  | S n' =>
      let w := Z.lxor (Z.lxor (Z.lxor (r !!! 2%nat) (r !!! 7%nat))
                 (r !!! 13%nat)) (r !!! 15%nat) in
      extend n' (rotl 1 w :: r)
  end.

Definition schedule (block : list Z) : list Z :=
  reverse (extend 64 (reverse (be_words block))).

Definition f (t : nat) (b c d : Z) : Z :=
  if (t <? 20)%nat then
    Z.lor (Z.land b c) (Z.land (Z.lxor b 0xFFFFFFFF) d)
  else if (t <? 40)%nat then Z.lxor (Z.lxor b c) d
  else if (t <? 60)%nat then
    Z.lor (Z.lor (Z.land b c) (Z.land b d)) (Z.land c d)
  else Z.lxor (Z.lxor b c) d.

Definition K (t : nat) : Z :=
  if (t <? 20)%nat then 0x5A827999
  else if (t <? 40)%nat then 0x6ED9EBA1
  else if (t <? 60)%nat then 0x8F1BBCDC
  else 0xCA62C1D6.

Record state : Type := mkState { ha : Z; hb : Z; hc : Z; hd : Z; he : Z }.

Definition init : state :=
  mkState 0x67452301 0xEFCDAB89 0x98BADCFE 0x10325476 0xC3D2E1F0.

Fixpoint rounds (t : nat) (ws : list Z) (s : state) : state :=
  match ws with
  | [] => s
  | w :: ws' =>
      let tmp := w32 (rotl 5 (ha s) + f t (hb s) (hc s) (hd s) + he s + K t + w) in
      rounds (S t) ws' (mkState tmp (ha s) (rotl 30 (hb s)) (hc s) (hd s))
  end.

Definition compress (s : state) (block : list Z) : state :=
  let r := rounds 0 (schedule block) s in
  mkState (w32 (ha s + ha r)) (w32 (hb s + hb r)) (w32 (hc s + hc r))
          (w32 (hd s + hd r)) (w32 (he s + he r)).

(** The blocks of 64 bytes, [n] of them. *)
Fixpoint blocks (n : nat) (s : state) (bs : list Z) : state :=
  match n with
  | O => s
  | S n' => blocks n' (compress s (take 64 bs)) (drop 64 bs)
  end.

(** [h := sha1.New(); h.Write(msg); h.Sum(nil)]. *)
Definition Sum (msg : list Z) : list Z :=
  let padded := pad msg in
  let s := blocks (length padded / 64) init padded in
  be_bytes 4 (ha s) ++ be_bytes 4 (hb s) ++ be_bytes 4 (hc s)
    ++ be_bytes 4 (hd s) ++ be_bytes 4 (he s).

End sha1.

(** [encoding/base64], [StdEncoding]: RFC 4648 with padding. *)
Module base64.

Definition encodeStd : string :=
  "ABCDEFGHIJKLMNOPQRSTUVWXYZabcdefghijklmnopqrstuvwxyz0123456789+/".

Definition digit (v : Z) : ascii :=
  match String.get (Z.to_nat v) encodeStd with
  | Some a => a
  | None => "="%char
  end.

Fixpoint EncodeToString (src : list Z) : string :=
  match src with
  | [] => EmptyString
  | [a] =>
      String (digit (Z.shiftr a 2))
        (String (digit (Z.shiftl (Z.land a 0x3) 4)) "==")
  | [a; b] =>
      String (digit (Z.shiftr a 2))
        (String (digit (Z.lor (Z.shiftl (Z.land a 0x3) 4) (Z.shiftr b 4)))
           (String (digit (Z.shiftl (Z.land b 0xF) 2)) "="))
  | a :: b :: c :: rest =>
      String (digit (Z.shiftr a 2))
        (String (digit (Z.lor (Z.shiftl (Z.land a 0x3) 4) (Z.shiftr b 4)))
           (String (digit (Z.lor (Z.shiftl (Z.land b 0xF) 2) (Z.shiftr c 6)))
              (String (digit (Z.land c 0x3F)) (EncodeToString rest))))
  end.

End base64.

(** [net/http]: the header map and the part of the response writer that
    [Upgrade] uses. *)
Module http.

Definition StatusSwitchingProtocols : Z := 101.

Definition is_lower (a : ascii) : bool :=
  ((97 <=? N_of_ascii a) && (N_of_ascii a <=? 122))%N.
Definition is_upper (a : ascii) : bool :=
  ((65 <=? N_of_ascii a) && (N_of_ascii a <=? 90))%N.
Definition to_upper (a : ascii) : ascii :=
  if is_lower a then ascii_of_N (N_of_ascii a - 32) else a.
Definition to_lower (a : ascii) : ascii :=
  if is_upper a then ascii_of_N (N_of_ascii a + 32) else a.

(** [CanonicalHeaderKey] on keys made of letters, digits and hyphens: the
    first letter and every letter after a hyphen in upper case, the others
    in lower case. *)
Fixpoint canonical (upper : bool) (s : string) : string :=
  match s with
  | EmptyString => EmptyString
  | String a s' =>
      String (if upper then to_upper a else to_lower a)
             (canonical (Ascii.eqb a "-") s')
  end.

Definition CanonicalHeaderKey (s : string) : string := canonical true s.

(** [h.Get(key)]: the first value under the canonical key, or [""]. *)
Definition Get (h : gmap string (list string)) (key : string) : string :=
  match h !! CanonicalHeaderKey key with
  | Some (v :: _) => v
  | _ => EmptyString
  end.

(** [h.Set(key, value)]. *)
Definition Set_ (h : gmap string (list string)) (key value : string)
  : gmap string (list string) :=
  <[CanonicalHeaderKey key := [value]]> h.

Record Request : Type := mkRequest { Header : gmap string (list string) }.

(** The response writer: the response headers, the status passed to
    [WriteHeader] if any, what [Hijack] will answer (an error, or the
    transport of type [T]) and whether [Hijack] has been called. *)
Record ResponseWriter (T : Type) : Type := mkResponse {
  wHeader : gmap string (list string);
  wStatus : option Z;
  wConn : error + T;
  wHijacked : bool
}.
Arguments mkResponse {T} wHeader wStatus wConn wHijacked.
Arguments wHeader {T} _.
Arguments wStatus {T} _.
Arguments wConn {T} _.
Arguments wHijacked {T} _.

Definition HeaderSet {T} (w : ResponseWriter T) (key value : string)
  : ResponseWriter T :=
  mkResponse (Set_ (wHeader w) key value) (wStatus w) (wConn w) (wHijacked w).

(** [w.WriteHeader(code)]: only the first call counts. *)
Definition WriteHeader {T} (w : ResponseWriter T) (code : Z) : ResponseWriter T :=
  match wStatus w with
  | Some _ => w
  | None => mkResponse (wHeader w) (Some code) (wConn w) (wHijacked w)
  end.

(** [http.NewResponseController(w).Hijack()]. *)
Definition Hijack {T} (w : ResponseWriter T) : option T * option error * ResponseWriter T :=
  let w' := mkResponse (wHeader w) (wStatus w) (wConn w) true in
  match wConn w with
  | inl e => (None, Some e, w')
  | inr t => (Some t, None, w')
  end.

End http.

(** ** The transport behind [c.rw] and [c.conn] *)

(** [rwRead t k] is [c.rw.Read(buf)] for a buffer of length [k]: the
    bytes received (they overwrite a prefix of [buf]), the error and the
    transport afterwards.  As for every [io.Reader], fewer than [k] bytes
    may be returned.  [sent t] lists the bytes handed to the writer so
    far. *)
Class Transport (T : Type) : Type := {
  rwRead : T -> nat -> list Z * option error * T;
  rwWrite : T -> list Z -> Z * option error * T;
  rwFlush : T -> option error * T;
  connClose : T -> option error * T;
  sent : T -> list Z
}.

(** The contract of [io.Reader]: a read returns at most as many bytes as
    the buffer holds; and reading hands nothing to the writer. *)
Class TransportLaws (T : Type) `{!Transport T} : Prop := {
  rwRead_bound : forall (t : T) (k : nat), (length (rwRead t k).1.1 <= k)%nat;
  rwRead_sent : forall (t : T) (k : nat), sent (rwRead t k).2 = sent t
}.

(** ** Package [ws] *)

Module ws.

Definition opCodeContinuation : Z := 0x0.
Definition opCodeText : Z := 0x1.
Definition opCodeBinary : Z := 0x2.
Definition opCodeClose : Z := 0x8.
Definition opCodePing : Z := 0x9.
Definition opCodePong : Z := 0xA.

Definition magicWebsocketGUID : string := "258EAFA5-E914-47DA-95CA-C5AB0DC85B11".

(** [getDataFrame]: the beginning of a frame for a payload of [size]
    bytes.  In [0x80|byte(opCodeText)&0x0F] the [&] binds tighter. *)
Definition getDataFrame (size : Z) : list Z :=
  let buffer := [] in
  let buffer := buffer ++ [Z.lor 0x80 (Z.land (byte_of opCodeText) 0x0F)] in
  if size <=? 125 then
    buffer ++ [byte_of size]
  else if size <=? 65535 then
    let buffer := buffer ++ [126] in
    let buffer := buffer ++ [byte_of (Z.shiftr size 0x08)] in
    buffer ++ [byte_of (Z.land size 0xFF)]
  else
    let buffer := buffer ++ [127] in
    let buffer := buffer ++ [byte_of (Z.shiftr size 0x38)] in
    let buffer := buffer ++ [byte_of (Z.shiftr size 0x30)] in
    let buffer := buffer ++ [byte_of (Z.shiftr size 0x28)] in
    let buffer := buffer ++ [byte_of (Z.shiftr size 0x20)] in
    let buffer := buffer ++ [byte_of (Z.shiftr size 0x18)] in
    let buffer := buffer ++ [byte_of (Z.shiftr size 0x10)] in
    let buffer := buffer ++ [byte_of (Z.shiftr size 0x08)] in
    buffer ++ [byte_of (Z.land size 0xFF)].

(** The unmasking loop of [Read],
    [for i := 0; i < len(payload); i++ { payload[i] ^= mask[i%4] }]:
    [unmaskFrom mask n i payload] runs the [n] iterations from index [i]. *)
Fixpoint unmaskFrom (mask : list Z) (n i : nat) (payload : list Z) : list Z :=
  match n with
  | O => payload
  | S n' =>
      unmaskFrom mask n' (S i)
        (<[i := Z.lxor (payload !!! i) (mask !!! (i mod 4)%nat)]> payload)
  end.

Definition unmask (mask payload : list Z) : list Z :=
  unmaskFrom mask (length payload) 0 payload.

(** What the loop does to the byte at index [off + i]. *)
Definition maskAt (mask : list Z) (off i : nat) (b : Z) : Z :=
  Z.lxor b (mask !!! ((off + i) mod 4)%nat).

(** [hashKey]: SHA-1 of the key followed by the GUID, in base64. *)
Definition hashKey (key : string) : string :=
  base64.EncodeToString
    (sha1.Sum (bytes_of_string (key ++ magicWebsocketGUID))).

(** The connection: [conn] and [rw] wrap one socket and are one
    transport state here. *)
Record connImpl (T : Type) : Type := mkConn {
  rw : T;
  buffer : option (list Z)
}.
Arguments mkConn {T} rw buffer.
Arguments rw {T} c.
Arguments buffer {T} c.

(** What a call to [Read] leaves behind: the destination slice, the two
    results and the connection. *)
Record ReadResult (T : Type) : Type := mkRead {
  dst : list Z;
  count : Z;
  err : option error;
  self : connImpl T
}.
Arguments mkRead {T} dst count err self.
Arguments dst {T} r.
Arguments count {T} r.
Arguments err {T} r.
Arguments self {T} r.

(** [Upgrade]: the connection or the error, and the response writer
    afterwards. *)
Definition Upgrade {T : Type} (w : http.ResponseWriter T) (r : http.Request)
  : option (connImpl T) * option error * http.ResponseWriter T :=
  let h := http.Header r in
  if negb (String.eqb (http.Get h "Connection") "Upgrade") then
    (None, Some (errors_New "missing 'connection' header"), w)
  else if negb (String.eqb (http.Get h "Upgrade") "websocket") then
    (None, Some (errors_New "missing 'upgrade' header"), w)
  else if negb (String.eqb (http.Get h "Sec-WebSocket-Version") "13") then
    (None, Some (errors_New "invalid version"), w)
  else if String.eqb (http.Get h "Sec-WebSocket-Key") "" then
    (None, Some (errors_New "missing 'sec-websocket-key' header"), w)
  else
    let key := http.Get h "Sec-WebSocket-Key" in
    let secKey := hashKey key in
    let w := http.HeaderSet w "Upgrade" "websocket" in
    let w := http.HeaderSet w "Connection" "Upgrade" in
    let w := http.HeaderSet w "Sec-WebSocket-Accept" secKey in
    let w := http.WriteHeader w http.StatusSwitchingProtocols in
    let '(conn, e, w) := http.Hijack w in
    match conn, e with
    | Some t, None => (Some (mkConn t None), None, w)
    | _, _ => (None, e, w)
    end.

Section Conn.
Context {T : Type} `{!Transport T}.

(** [c.rw.Read(buf)]: the buffer afterwards, the count, the error and
    the transport. *)
Definition readInto (t : T) (buf : list Z) : list Z * Z * option error * T :=
  let '(data, e, t') := rwRead t (length buf) in
  (data ++ drop (length data) buf, len data, e, t').

(** The extended payload length: the branches on [0x7E] and [0x7F]. *)
Definition readLength (t : T) (payloadLength : Z) : Z * option error * T :=
  if payloadLength =? 0x7E then
    let payload := make 2 in
    let '(payload, _, e, t) := readInto t payload in
    match e with
    | Some _ => (payloadLength, e, t)
    | None =>
        (Z.lor (Z.shiftl (payload !!! 0%nat) 0x08) (payload !!! 1%nat), None, t)
    end
  else if payloadLength =? 0x7F then
    let payload := make 8 in
    let '(payload, _, e, t) := readInto t payload in
    match e with
    | Some _ => (payloadLength, e, t)
    | None =>
        (Z.lor (Z.lor (Z.lor (Z.lor (Z.lor (Z.lor (Z.lor
           (int_of (Z.shiftl (payload !!! 0%nat) 0x38))
           (Z.shiftl (payload !!! 1%nat) 0x30))
           (Z.shiftl (payload !!! 2%nat) 0x28))
           (Z.shiftl (payload !!! 3%nat) 0x20))
           (Z.shiftl (payload !!! 4%nat) 0x18))
           (Z.shiftl (payload !!! 5%nat) 0x10))
           (Z.shiftl (payload !!! 6%nat) 0x08))
           (payload !!! 7%nat), None, t)
    end
  else (payloadLength, None, t).

(** The [case opCodeText, opCodeBinary] branch. *)
Definition readData (t : T) (payloadLength : Z) (p : list Z)
  : outcome (ReadResult T) :=
  let '(payloadLength, e, t) := readLength t payloadLength in
  match e with
  | Some _ => Return (mkRead p 0 e (mkConn t None))
  | None =>
      let mask := make 4 in
      let '(mask, _, e, t) := readInto t mask in
      match e with
      | Some _ => Return (mkRead p 0 e (mkConn t None))
      | None =>
          if (payloadLength <? 0) || (payloadLength >? maxAlloc) then
            Panic "makeslice: len out of range"
          else
            let payload := make payloadLength in
            let '(payload, _, e, t) := readInto t payload in
            match e with
            | Some _ => Return (mkRead p 0 e (mkConn t None))
            | None =>
                let payload := unmask mask payload in
                if payloadLength >? len p then
                  let '(p, n) := copy p payload in
                  Return (mkRead p n None (mkConn t (Some (slice_from payload n))))
                else
                  let '(p, _) := copy p payload in
                  Return (mkRead p (len payload) None (mkConn t None))
            end
      end
  end.

(** The [for] loop of [Read], entered with a nil [buffer]. *)
Fixpoint readFrames (fuel : nat) (t : T) (p : list Z)
  : option (outcome (ReadResult T)) :=
  match fuel with
  | O => None
  | S fuel' =>
      let frame := make 2 in
      let '(frame, _, e, t) := readInto t frame in
      match e with
      | Some _ => Some (Return (mkRead p 0 e (mkConn t None)))
      | None =>
          let opCode := Z.land (frame !!! 0%nat) 0x0F in
          let payloadLength := Z.land (frame !!! 1%nat) 0x7F in
          if (opCode =? opCodeText) || (opCode =? opCodeBinary) then
            Some (readData t payloadLength p)
          else if (opCode =? opCodePing) || (opCode =? opCodePong) then
            readFrames fuel' t p
          else if opCode =? opCodeClose then
            Some (Return (mkRead p 0 (Some (errors_New "connection closed"))
                            (mkConn t None)))
          else
            Some (Return (mkRead p 0 (Some (errors_New "unknown opcode"))
                            (mkConn t None)))
      end
  end.

Definition Read (fuel : nat) (c : connImpl T) (p : list Z)
  : option (outcome (ReadResult T)) :=
  match buffer c with
  | Some buf =>
      let '(p, n) := copy p buf in
      let c :=
        if n =? len buf then mkConn (rw c) None
        else mkConn (rw c) (Some (slice_from buf n)) in
      Some (Return (mkRead p n None c))
  | None => readFrames fuel (rw c) p
  end.

Definition Write (c : connImpl T) (p : list Z) : Z * option error * connImpl T :=
  let frame := getDataFrame (len p) in
  let '(_, e, t) := rwWrite (rw c) frame in
  match e with
  | Some _ => (0, e, mkConn t (buffer c))
  | None =>
      let '(n, e, t) := rwWrite t p in
      match e with
      | Some _ => (0, e, mkConn t (buffer c))
      | None =>
          let '(e, t) := rwFlush t in
          (n, e, mkConn t (buffer c))
      end
  end.

Definition Close (c : connImpl T) : option error * connImpl T :=
  let '(e, t) := connClose (rw c) in (e, mkConn t (buffer c)).

(** *** Notions used to state the properties *)

(** The leftover bytes of a connection, the nil buffer holding none. *)
Definition leftover (c : connImpl T) : list Z := default [] (buffer c).

(** [delivers t reads t']: from [t], successive reads of
    [length bs] bytes, for each [bs] of [reads], return exactly [bs] and
    no error, and lead to [t']. *)
Fixpoint delivers (t : T) (reads : list (list Z)) (t' : T) : Prop :=
  match reads with
  | [] => t = t'
  | bs :: reads' =>
      exists t1, rwRead t (length bs) = (bs, None, t1) /\ delivers t1 reads' t'
  end.

(** The reads that [Read] issues for a data frame: the two header bytes,
    the extended length when there is one, the mask key, the payload. *)
Definition frameReads (header key body : list Z) : list (list Z) :=
  [take 2 header]
    ++ match drop 2 header with [] => [] | ext => [ext] end
    ++ [key; body].

(** The end of the data branch of [Read], once the unmasked [payload]
    is known: the partial-read return or the complete one. *)
Definition deliver (t : T) (p payload : list Z) : ReadResult T :=
  if len payload >? len p then
    let '(p, n) := copy p payload in
    mkRead p n None (mkConn t (Some (slice_from payload n)))
  else
    let '(p, _) := copy p payload in
    mkRead p (len payload) None (mkConn t None).

(** The first branch of [Read]: serving from the leftover [buf]. *)
Definition serve (c : connImpl T) (buf p : list Z) : ReadResult T :=
  let '(p, n) := copy p buf in
  mkRead p n None
    (if n =? len buf then mkConn (rw c) None
     else mkConn (rw c) (Some (slice_from buf n))).

(** A caller that invokes [Read] once for each destination slice of
    [dsts], in order; the results of the calls and the connection at the
    end. *)
Fixpoint readEach (fuel : nat) (c : connImpl T) (dsts : list (list Z))
  : option (list (ReadResult T) * connImpl T) :=
  match dsts with
  | [] => Some ([], c)
  | p :: dsts' =>
      match Read fuel c p with
      | Some (Return r) =>
          match readEach fuel (self r) dsts' with
          | Some (rs, c') => Some (r :: rs, c')
          | None => None
          end
      | _ => None
      end
  end.

(** The bytes that a call delivered: [p[:n]]. *)
Definition delivered (r : ReadResult T) : list Z :=
  take (Z.to_nat (count r)) (dst r).

(** The facts about a returned result [r] of a decoding started on
    transport [t] with destination [p]: an error comes with count 0, the
    destination untouched and a nil buffer; nothing is written; a buffer
    that is kept is not empty. *)
Definition decoded (t : T) (p : list Z) (r : ReadResult T) : Prop :=
  (err r <> None -> count r = 0 /\ buffer (self r) = None /\ dst r = p)
  /\ sent (rw (self r)) = sent t
  /\ buffer (self r) <> Some [].

(** The states of a connection: created by [Upgrade] with a nil buffer,
    then changed by [Read], [Write] and [Close]. *)
Inductive reachable : connImpl T -> Prop :=
| reach_Upgrade (t : T) : reachable (mkConn t None)
| reach_Read (c : connImpl T) (fuel : nat) (p : list Z) (r : ReadResult T) :
    reachable c -> Read fuel c p = Some (Return r) -> reachable (self r)
| reach_Write (c : connImpl T) (p : list Z) :
    reachable c -> reachable (Write c p).2
| reach_Close (c : connImpl T) :
    reachable c -> reachable (Close c).2.

End Conn.

End ws.

(** ** An in-memory transport *)

(** The incoming bytes arrive in segments; a read returns bytes of one
    segment only, so a request that crosses a segment boundary is
    answered short.  [Close] ends the incoming side: a read of a closed
    connection fails, as a second [Close] does.  The outgoing side
    records what is written: the bytes are buffered until [Flush]. *)
Module mem.

Record memConn : Type := mkMem {
  incoming : list (list Z);
  unflushed : list Z;
  outgoing : list Z;
  closed : bool
}.

Definition EOF : error := errors_New "EOF".

(** [net.ErrClosed]. *)
Definition ErrClosed : error := errors_New "use of closed network connection".

Definition memRead (m : memConn) (k : nat) : list Z * option error * memConn :=
  match k with
  | O => ([], None, m)
  | S _ =>
      if closed m then ([], Some ErrClosed, m)
      else
        match incoming m with
        | [] => ([], Some EOF, m)
        | seg :: rest =>
            if (length seg <=? k)%nat then
              (seg, None, mkMem rest (unflushed m) (outgoing m) (closed m))
            else
              (take k seg, None,
               mkMem (drop k seg :: rest) (unflushed m) (outgoing m) (closed m))
        end
  end.

Definition memWrite (m : memConn) (bs : list Z) : Z * option error * memConn :=
  (len bs, None, mkMem (incoming m) (unflushed m ++ bs) (outgoing m) (closed m)).

Definition memFlush (m : memConn) : option error * memConn :=
  (None, mkMem (incoming m) [] (outgoing m ++ unflushed m) (closed m)).

Definition memClose (m : memConn) : option error * memConn :=
  if closed m then (Some ErrClosed, m)
  else (None, mkMem (incoming m) (unflushed m) (outgoing m) true).

Definition memSent (m : memConn) : list Z := outgoing m ++ unflushed m.

#[global] Instance memTransport : Transport memConn := {|
  rwRead := memRead;
  rwWrite := memWrite;
  rwFlush := memFlush;
  connClose := memClose;
  sent := memSent
|}.

(** The number of reads that surely exhaust the incoming segments. *)
Definition pending (segs : list (list Z)) : nat :=
  foldr (fun seg n => S (length seg + n)) 0%nat segs.

(** A connection whose incoming segments are [segs]. *)
Definition receiving (segs : list (list Z)) : ws.connImpl memConn :=
  ws.mkConn (mkMem segs [] [] false) None.

(** Sample frames of RFC 6455, section 5.7: the masked text frame
    "Hello" and the masked pong with the same body. *)
Definition helloFrame : list Z :=
  [0x81; 0x85; 0x37; 0xfa; 0x21; 0x3d; 0x7f; 0x9f; 0x4d; 0x51; 0x58].

Definition pongFrame : list Z :=
  [0x8a; 0x85; 0x37; 0xfa; 0x21; 0x3d; 0x7f; 0x9f; 0x4d; 0x51; 0x58].

Definition helloText : list Z := [72; 101; 108; 108; 111].

(** A payload of 1000 bytes, its mask key and its binary frame. *)
Definition thousand : list Z :=
  (fun i => Z.of_nat i mod 251) <$> seq 0 1000.

Definition sampleKey : list Z := [0x37; 0xfa; 0x21; 0x3d].

Definition thousandFrame : list Z :=
  [0x82; 0xFE; 0x03; 0xE8] ++ sampleKey ++ ws.unmask sampleKey thousand.

(** A payload of 126 bytes behind the header of [getDataFrame] and a
    mask key. *)
Definition maskedFrame126 : list Z :=
  ws.getDataFrame 126 ++ sampleKey ++ ws.unmask sampleKey (take 126 thousand).

(** The connection after a first [Read] of "Hello" into two bytes. *)
Definition helloPartial : ws.connImpl memConn :=
  ws.mkConn (mkMem [] [] [] false) (Some [108; 108; 111]).

(** A request with the given headers, and a fresh response writer over
    an in-memory transport. *)
Definition request (headers : list (string * string)) : http.Request :=
  http.mkRequest
    (foldl (fun h kv => http.Set_ h kv.1 kv.2) (∅ : gmap string (list string))
       headers).

Definition freshWriter : http.ResponseWriter memConn :=
  http.mkResponse ∅ None (inr (mkMem [] [] [] false)) false.

Definition goodHeaders : list (string * string) :=
  [("Connection", "Upgrade"); ("Upgrade", "websocket");
   ("Sec-WebSocket-Version", "13");
   ("Sec-WebSocket-Key", "dGhlIHNhbXBsZSBub25jZQ==")]%string.

End mem.

(** ** The buffered reader of the standard library *)

(** [bufio.Reader.Read] over a connection whose bytes arrive in segments,
    after its source: a read of length 0 returns at once; with an empty
    buffer, a pending error is reported, a read at least as large as the
    buffer goes to the connection directly, and a smaller one fills the
    buffer by one read of the connection; then as many buffered bytes as
    fit are copied.  So the bytes come from at most one read of the
    connection and can be fewer than asked for.  The reader and the
    writer that [Hijack] hands out have buffers of 4096 bytes; the
    buffer of the writer is not bounded here.  [Close] closes the
    connection only: the bytes that the reader holds are still read,
    and reads of the connection and flushes to it fail from then on, an
    error of the writer being kept for its later calls. *)
Module bufio.

Definition defaultBufSize : nat := 4096.

Record ReadWriter : Type := mkRW {
  buffered : list Z;
  size : nat;
  rerr : option error;
  conn : list (list Z);
  wbuf : list Z;
  wire : list Z;
  closed : bool;
  werr : option error
}.

(** [net.ErrClosed]. *)
Definition ErrClosed : error := errors_New "use of closed network connection".

(** The reader side after a read: the buffer, the pending error and the
    connection change. *)
Definition reader (b : ReadWriter) (buf : list Z) (e : option error)
    (segs : list (list Z)) : ReadWriter :=
  mkRW buf (size b) e segs (wbuf b) (wire b) (closed b) (werr b).

(** One read of the connection into a buffer of [k] bytes. *)
Definition connRead (cl : bool) (segs : list (list Z)) (k : nat)
  : list Z * option error * list (list Z) :=
  if cl then ([], Some ErrClosed, segs)
  else
    match segs with
    | [] => ([], Some (errors_New "EOF"), [])
    | seg :: rest =>
        if (length seg <=? k)%nat then (seg, None, rest)
        else (take k seg, None, drop k seg :: rest)
    end.

Definition Read (b : ReadWriter) (k : nat) : list Z * option error * ReadWriter :=
  match k with
  | O =>
      match buffered b with
      | [] => ([], rerr b, reader b [] None (conn b))
      | _ :: _ => ([], None, b)
      end
  | S _ =>
      match buffered b with
      | [] =>
          match rerr b with
          | Some e => ([], Some e, reader b [] None (conn b))
          | None =>
              if (size b <=? k)%nat then
                let '(data, e, conn') := connRead (closed b) (conn b) k in
                (data, e, reader b [] None conn')
              else
                let '(data, e, conn') :=
                  connRead (closed b) (conn b) (size b) in
                match data with
                | [] => ([], e, reader b [] None conn')
                | _ :: _ => (take k data, None, reader b (drop k data) e conn')
                end
          end
      | _ :: _ =>
          (take k (buffered b), None,
           reader b (drop k (buffered b)) (rerr b) (conn b))
      end
  end.

Definition Write (b : ReadWriter) (bs : list Z) : Z * option error * ReadWriter :=
  match werr b with
  | Some e => (0, Some e, b)
  | None =>
      (len bs, None,
       mkRW (buffered b) (size b) (rerr b) (conn b) (wbuf b ++ bs) (wire b)
            (closed b) None)
  end.

Definition Flush (b : ReadWriter) : option error * ReadWriter :=
  match werr b with
  | Some e => (Some e, b)
  | None =>
      match wbuf b with
      | [] => (None, b)
      | _ :: _ =>
          if closed b then
            (Some ErrClosed,
             mkRW (buffered b) (size b) (rerr b) (conn b) (wbuf b) (wire b)
                  true (Some ErrClosed))
          else
            (None,
             mkRW (buffered b) (size b) (rerr b) (conn b) [] (wire b ++ wbuf b)
                  false None)
      end
  end.

Definition Close (b : ReadWriter) : option error * ReadWriter :=
  if closed b then (Some ErrClosed, b)
  else
    (None,
     mkRW (buffered b) (size b) (rerr b) (conn b) (wbuf b) (wire b) true
          (werr b)).

#[global] Instance rwTransport : Transport ReadWriter := {|
  rwRead := Read;
  rwWrite := Write;
  rwFlush := Flush;
  connClose := Close;
  sent := fun b => wire b ++ wbuf b
|}.

(** A reader and writer as [Hijack] returns them when nothing has been
    read ahead: empty buffers, no error, on an open connection about to
    deliver [segs].  (The reader that [Hijack] returns can also hold
    bytes that the server has read already.) *)
Definition hijacked (segs : list (list Z)) : ReadWriter :=
  mkRW [] defaultBufSize None segs [] [] false None.

(** A payload of 5000 bytes and its masked binary frame. *)
Definition fiveThousand : list Z :=
  (fun i => Z.of_nat i mod 251) <$> seq 0 5000.

Definition fiveThousandFrame : list Z :=
  [0x82; 0xFE; 0x13; 0x88] ++ mem.sampleKey
    ++ ws.unmask mem.sampleKey fiveThousand.

End bufio.


(** ** Notions for the further properties *)

(** The value of a byte sequence read most significant byte first. *)
Definition beValue (bs : list Z) : Z := foldl (fun acc b => acc * 256 + b) 0 bs.

(** The sum of the lengths of destination slices. *)
Definition capacity (dsts : list (list Z)) : nat :=
  foldr (fun p n => (length p + n)%nat) 0%nat dsts.

Section MoreNotions.
Context {T : Type} `{!Transport T}.

(** What [io.Reader] asks of a result for destination [p]: a count
    between 0 and [len(p)], a destination of the same length, and the
    bytes behind the count left as they were. *)
Definition framed (p : list Z) (r : ws.ReadResult T) : Prop :=
  0 <= ws.count r <= len p
  /\ length (ws.dst r) = length p
  /\ drop (Z.to_nat (ws.count r)) (ws.dst r) = drop (Z.to_nat (ws.count r)) p.

(** The error [e] of a result [r] is one that a read of the transport
    returned, and the connection stands where that read left it. *)
Definition fromTransport (e : error) (r : ws.ReadResult T) : Prop :=
  exists (t : T) (k : nat),
    (rwRead t k).1.2 = Some e /\ ws.rw (ws.self r) = (rwRead t k).2.

(** Some text or binary frame announces a length that [make] refuses:
    a header read in full, with a text or binary opcode, behind which
    [readLength] finds a length that is negative or above [maxAlloc]. *)
Definition refusedLength : Prop :=
  exists (t0 t1 : T) (frame : list Z) (k n : Z),
    ws.readInto t0 (make 2) = (frame, k, None, t1)
    /\ (Z.land (frame !!! 0%nat) 0x0F = ws.opCodeText
        \/ Z.land (frame !!! 0%nat) 0x0F = ws.opCodeBinary)
    /\ (ws.readLength t1 (Z.land (frame !!! 1%nat) 0x7F)).1 = (n, None)
    /\ (n < 0 \/ maxAlloc < n).

(** The three kinds of error of a decoding. *)
Definition knownError (e : error) (r : ws.ReadResult T) : Prop :=
  e = errors_New "connection closed"
  \/ e = errors_New "unknown opcode"
  \/ fromTransport e r.

End MoreNotions.

(** The contract of [io.Writer] that [bufio.Writer.Write] keeps: the
    count is between 0 and the length of the data, and a count short of
    it comes with an error. *)
Class WriterContract (T : Type) `{!Transport T} : Prop := {
  rwWrite_count : forall (t : T) (bs : list Z),
    0 <= (rwWrite t bs).1.1 <= len bs
    /\ ((rwWrite t bs).1.1 < len bs -> (rwWrite t bs).1.2 <> None)
}.

(** A writer that accepts everything: each write takes all the bytes, in
    order, behind what was sent before, and a flush loses nothing. *)
Class WriterAccepts (T : Type) `{!Transport T} : Prop := {
  rwWrite_accepts : forall (t : T) (bs : list Z),
    (rwWrite t bs).1 = (len bs, None) /\ sent (rwWrite t bs).2 = sent t ++ bs;
  rwFlush_accepts : forall (t : T),
    (rwFlush t).1 = None /\ sent (rwFlush t).2 = sent t
}.

Section MoreCallers.
Context {T : Type} `{!Transport T}.

(** A caller that writes the messages [ps] one after the other; the
    results of the calls and the connection at the end. *)
Fixpoint writeEach (c : ws.connImpl T) (ps : list (list Z))
  : list (Z * option error) * ws.connImpl T :=
  match ps with
  | [] => ([], c)
  | p :: ps' =>
      let '(n, e, c1) := ws.Write c p in
      let '(rs, c2) := writeEach c1 ps' in
      ((n, e) :: rs, c2)
  end.

(** The frame that [Write] sends for a message. *)
Definition sentFrame (p : list Z) : list Z := ws.getDataFrame (len p) ++ p.

End MoreCallers.

(** The response writer after the three [Set] and [WriteHeader] of
    [Upgrade], before [Hijack]. *)
Definition switching {T : Type} (w : http.ResponseWriter T) (key : string)
  : http.ResponseWriter T :=
  http.WriteHeader
    (http.HeaderSet
       (http.HeaderSet (http.HeaderSet w "Upgrade" "websocket")
          "Connection" "Upgrade")
       "Sec-WebSocket-Accept" (ws.hashKey key))
    http.StatusSwitchingProtocols.

(** ** A transport whose writer can fail *)

(** The writer takes [room] more bytes and then fails with a short
    count; [Flush] answers [flushErr].  Nothing arrives for reading. *)
Module faulty.

Record pipe : Type := mkPipe {
  accepted : list Z;
  room : nat;
  flushErr : option error
}.

Definition ErrShortWrite : error := errors_New "short write".

Definition pipeRead (t : pipe) (k : nat) : list Z * option error * pipe :=
  ([], Some (errors_New "EOF"), t).

Definition pipeWrite (t : pipe) (bs : list Z) : Z * option error * pipe :=
  if (length bs <=? room t)%nat then
    (len bs, None,
     mkPipe (accepted t ++ bs) (room t - length bs) (flushErr t))
  else
    (Z.of_nat (room t), Some ErrShortWrite,
     mkPipe (accepted t ++ take (room t) bs) 0 (flushErr t)).

Definition pipeFlush (t : pipe) : option error * pipe := (flushErr t, t).

Definition pipeClose (t : pipe) : option error * pipe := (None, t).

#[global] Instance pipeTransport : Transport pipe := {|
  rwRead := pipeRead;
  rwWrite := pipeWrite;
  rwFlush := pipeFlush;
  connClose := pipeClose;
  sent := accepted
|}.

End faulty.

(** ** Command [main]: the echo endpoint *)

(** The handler of [GET /ws/echo], after [main.go].  The log is kept as
    the list of the entries written, without their layout; the response
    body is the list of the bytes written to the response writer.
    [r.RemoteAddr] is the argument [remoteAddr].  [turns] bounds the
    [for] loop of the handler and [rfuel] the one of each [Read]. *)
Module main.

Inductive logEntry : Type :=
| FailedToUpgrade (e : error)
| ClientConnected (addr : string)
| ClientDisconnected (e : error)
| ReadBytes (n : Z)
| Printed (data : list Z).

Definition StatusBadRequest : Z := 400.

(** [err.Error()]. *)
Definition message (e : error) : string := let 'errors_New m := e in m.

(** [http.Error(w, msg, code)]: the two headers of a plain-text answer,
    the status, and the message followed by a newline as body. *)
Definition httpError {T : Type} (w : http.ResponseWriter T) (body : list Z)
    (msg : string) (code : Z) : http.ResponseWriter T * list Z :=
  let w := http.HeaderSet w "Content-Type" "text/plain; charset=utf-8" in
  let w := http.HeaderSet w "X-Content-Type-Options" "nosniff" in
  let w := http.WriteHeader w code in
  (w, body ++ bytes_of_string msg ++ [10]).

(** [s[:n]]: it panics outside [0 <= n <= len(s)]. *)
Definition slice_to (s : list Z) (n : Z) : outcome (list Z) :=
  if (n <? 0) || (n >? len s) then Panic "slice bounds out of range"
  else Return (take (Z.to_nat n) s).

(** What the handler leaves behind when it returns. *)
Record served (T : Type) : Type := mkServed {
  response : http.ResponseWriter T;
  body : list Z;
  logged : list logEntry;
  conn : option (ws.connImpl T)
}.
Arguments mkServed {T} response body logged conn.
Arguments response {T} _.
Arguments body {T} _.
Arguments logged {T} _.
Arguments conn {T} _.

Section Handler.
Context {T : Type} `{!Transport T}.

(** The [for] loop of the handler. *)
Fixpoint echoLoop (turns rfuel : nat) (c : ws.connImpl T) (log : list logEntry)
  : option (outcome (ws.connImpl T * list logEntry)) :=
  match turns with
  | O => None
  | S turns' =>
      let buffer := make 512 in
      match ws.Read rfuel c buffer with
      | None => None
      | Some (Panic m) => Some (Panic m)
      | Some (Return r) =>
          match ws.err r with
          | Some e => Some (Return (ws.self r, log ++ [ClientDisconnected e]))
          | None =>
              let log := log ++ [ReadBytes (ws.count r)] in
              match slice_to (ws.dst r) (ws.count r) with
              | Panic m => Some (Panic m)
              | Return data =>
                  let log := log ++ [Printed data] in
                  let '(_, _, c) := ws.Write (ws.self r) data in
                  echoLoop turns' rfuel c log
              end
          end
      end
  end.

Definition handler (turns rfuel : nat) (w : http.ResponseWriter T)
    (r : http.Request) (remoteAddr : string) : option (outcome (served T)) :=
  let '(conn, err, w) := ws.Upgrade w r in
  match err with
  | Some e =>
      let log := [FailedToUpgrade e] in
      let '(w, body) := httpError w [] (message e) StatusBadRequest in
      Some (Return (mkServed w body log None))
  | None =>
      let log := [ClientConnected remoteAddr] in
      match conn with
      | None => Some (Panic "invalid memory address or nil pointer dereference")
      | Some c =>
          match echoLoop turns rfuel c log with
          | None => None
          | Some (Panic m) => Some (Panic m)
          | Some (Return (c, log)) =>
              let '(_, c) := ws.Close c in
              Some (Return (mkServed w [] log (Some c)))
          end
      end
  end.

End Handler.

(** The pieces in which the handler echoes a payload: pieces of 512
    bytes and a last one of 1 to 512 bytes; one empty piece for an empty
    payload.  [n] bounds the number of pieces. *)
Fixpoint pieces (n : nat) (payload : list Z) : list (list Z) :=
  match n with
  | O => []
  | S n' =>
      if (length payload <=? 512)%nat then [payload]
      else take 512 payload :: pieces n' (drop 512 payload)
  end.

(** The log entries and the bytes on the wire for the pieces of an
    echo. *)
Definition echoLog (chunks : list (list Z)) : list logEntry :=
  concat ((fun ch => [ReadBytes (len ch); Printed ch]) <$> chunks).

Definition echoWire (chunks : list (list Z)) : list Z :=
  concat ((fun ch => ws.getDataFrame (len ch) ++ ch) <$> chunks).

End main.


(** * Properties *)

Import ws mem.

(** ** The in-memory transport keeps the contract of a reader *)

Lemma memRead_bound (m : memConn) (k : nat) :
  (length (memRead m k).1.1 <= k)%nat.
Proof.
  unfold memRead. destruct k as [|k]; [simpl; lia|].
  destruct (closed m); [simpl; lia|].
  destruct (incoming m) as [|seg rest]; [simpl; lia|].
  destruct (Nat.leb_spec (length seg) (S k)); simpl; [lia|].
  rewrite length_take. lia.
Qed.

Lemma memRead_sent (m : memConn) (k : nat) :
  memSent (memRead m k).2 = memSent m.
Proof.
  unfold memRead. destruct k as [|k]; [reflexivity|].
  destruct (closed m); [reflexivity|].
  destruct (incoming m) as [|seg rest]; [reflexivity|].
  destruct (length seg <=? S k)%nat; reflexivity.
Qed.

#[global] Instance memLaws : TransportLaws memConn.
Proof. split; [exact memRead_bound | exact memRead_sent]. Qed.

(** ** So does the buffered reader *)

Section BufioLaws.
Import bufio.

Lemma bufioRead_bound (b : ReadWriter) (k : nat) :
  (length (bufio.Read b k).1.1 <= k)%nat.
Proof.
  unfold bufio.Read, bufio.connRead. destruct k as [|k].
  - destruct (buffered b); simpl; lia.
  - destruct (buffered b) as [|x buf].
    + destruct (rerr b); [simpl; lia|].
      destruct (closed b); [destruct (size b <=? S k)%nat; simpl; lia|].
      destruct (Nat.leb_spec (size b) (S k)) as [Hs|Hs].
      * destruct (conn b) as [|seg rest]; [simpl; lia|].
        destruct (Nat.leb_spec (length seg) (S k)); simpl; [lia|].
        rewrite length_take. lia.
      * destruct (conn b) as [|seg rest]; [simpl; lia|].
        destruct (Nat.leb_spec (length seg) (size b)).
        -- destruct seg; simpl; [lia|]. rewrite length_take. lia.
        -- destruct (take (size b) seg); simpl; [lia|].
           rewrite length_take. lia.
    + cbn [fst]. rewrite length_take. lia.
Qed.

Lemma bufioRead_sent (b : ReadWriter) (k : nat) :
  sent (bufio.Read b k).2 = sent b.
Proof.
  unfold bufio.Read. destruct k as [|k].
  - destruct (buffered b); reflexivity.
  - destruct (buffered b) as [|x buf]; [|reflexivity].
    destruct (rerr b); [reflexivity|].
    destruct (size b <=? S k)%nat.
    + destruct (bufio.connRead (closed b) (conn b) (S k)) as [[data e] c'].
      reflexivity.
    + destruct (bufio.connRead (closed b) (conn b) (size b)) as [[data e] c'].
      destruct data; reflexivity.
Qed.

End BufioLaws.

#[global] Instance rwLaws : TransportLaws bufio.ReadWriter.
Proof. split; [exact bufioRead_bound | exact bufioRead_sent]. Qed.


(** ** The masking loop *)

Section Masking.

Lemma unmaskFrom_app (mask suf pre : list Z) :
  unmaskFrom mask (length suf) (length pre) (pre ++ suf)
  = pre ++ imap (maskAt mask (length pre)) suf.
Proof.
  revert pre. induction suf as [|b suf IH]; intros pre; [reflexivity|].
  cbn [length unmaskFrom].
  rewrite insert_app_r_alt; [|lia]. rewrite lookup_total_app_r; [|lia].
  rewrite Nat.sub_diag. cbn [insert list_insert lookup_total list_lookup_total].
  rewrite (cons_middle _ pre suf), app_assoc.
  replace (S (length pre))
    with (length (pre ++ [Z.lxor b (mask !!! (length pre mod 4)%nat)]))
    by (rewrite length_app; simpl; lia).
  rewrite IH. rewrite <- app_assoc. f_equal. simpl. unfold maskAt at 2.
  rewrite Nat.add_0_r. f_equal.
  apply imap_ext. intros i x _. unfold maskAt. simpl. rewrite length_app. simpl.
  replace (length pre + 1 + i)%nat with (length pre + S i)%nat by lia.
  reflexivity.
Qed.

Lemma unmask_imap (mask payload : list Z) :
  unmask mask payload = imap (maskAt mask 0) payload.
Proof. apply (unmaskFrom_app mask payload []). Qed.

Lemma length_unmask (mask payload : list Z) :
  length (unmask mask payload) = length payload.
Proof. rewrite unmask_imap. apply length_imap. Qed.

Lemma lookup_unmask (mask payload : list Z) (i : nat) :
  unmask mask payload !! i
  = (fun b => Z.lxor b (mask !!! (i mod 4)%nat)) <$> payload !! i.
Proof. rewrite unmask_imap, list_lookup_imap. reflexivity. Qed.

Lemma unmask_unmask (mask payload : list Z) :
  unmask mask (unmask mask payload) = payload.
Proof.
  apply list_eq. intros i. rewrite !lookup_unmask.
  destruct (payload !! i) as [b|]; [|reflexivity]. simpl.
  rewrite Z.lxor_assoc, Z.lxor_nilpotent, Z.lxor_0_r. reflexivity.
Qed.

(** C5. Masking involution: with a 4-byte key, the loop
    [payload[i] ^= key[i%4]] XORs the byte at every index [i] with
    [key[i mod 4]], and running it twice with the same key gives back the
    payload. *)
Theorem masking_involution (key payload : list Z) :
  length key = 4%nat ->
  (forall i b, payload !! i = Some b ->
     unmask key payload !! i = Some (Z.lxor b (key !!! (i mod 4)%nat)))
  /\ unmask key (unmask key payload) = payload.
Proof.
  intros _. split.
  - intros i b Hb. rewrite lookup_unmask, Hb. reflexivity.
  - apply unmask_unmask.
Qed.

Lemma masking_involution_witness :
  unmask [0x37; 0xfa; 0x21; 0x3d]
    (unmask [0x37; 0xfa; 0x21; 0x3d] [72; 101; 108; 108; 111])
  = [72; 101; 108; 108; 111].
Proof.
  apply (masking_involution [0x37; 0xfa; 0x21; 0x3d] [72; 101; 108; 108; 111]).
  reflexivity.
Defined.

End Masking.

(** ** Slices *)

Section Slices.

Lemma len_nonneg (s : list Z) : 0 <= len s.
Proof. unfold len. lia. Qed.

Lemma length_make (n : Z) : length (make n) = Z.to_nat n.
Proof. apply length_replicate. Qed.

Lemma make_len (s : list Z) : length (make (len s)) = length s.
Proof. rewrite length_make. unfold len. apply Nat2Z.id. Qed.

Lemma copy_count (dst src : list Z) :
  (copy dst src).2 = Z.min (len dst) (len src).
Proof. unfold copy, len. simpl. lia. Qed.

Lemma copy_length (dst src : list Z) :
  length (copy dst src).1 = length dst.
Proof.
  unfold copy. simpl. rewrite length_app, length_take, length_drop. lia.
Qed.

(** [getDataFrame] builds bytes. *)
Lemma getDataFrame_bytes (size : Z) : Forall is_byte (getDataFrame size).
Proof.
  assert (forall x, is_byte (byte_of x)) as Hb
    by (intros x; unfold is_byte, byte_of; apply Z.mod_pos_bound; lia).
  unfold getDataFrame.
  destruct (size <=? 125); [|destruct (size <=? 65535)]; cbn [app];
    repeat (constructor; [first [apply Hb | unfold is_byte; vm_compute; intuition discriminate]|]);
    constructor.
Qed.

(** The bytes copied are a prefix of the source, the rest follows. *)
Lemma copy_take_drop (dst src : list Z) :
  take (Z.to_nat (copy dst src).2) (copy dst src).1
    ++ slice_from src (copy dst src).2 = src.
Proof.
  unfold copy, slice_from. simpl. rewrite Nat2Z.id.
  rewrite take_app_le; [|rewrite length_take; lia].
  rewrite take_take, Nat.min_id. apply take_drop.
Qed.

End Slices.

(** ** Reading frames, for every transport *)

Section Reading.
Context {T : Type} `{!Transport T} `{!TransportLaws T}.

Lemma readInto_length (t : T) (buf : list Z) :
  length (readInto t buf).1.1.1 = length buf.
Proof.
  unfold readInto. pose proof (rwRead_bound t (length buf)) as Hb.
  destruct (rwRead t (length buf)) as [[data e] t']. simpl in *.
  rewrite length_app, length_drop. lia.
Qed.

Lemma readInto_sent (t : T) (buf : list Z) :
  sent (readInto t buf).2 = sent t.
Proof.
  unfold readInto. pose proof (rwRead_sent t (length buf)) as Hs.
  destruct (rwRead t (length buf)) as [[data e] t']. exact Hs.
Qed.

(** A read that is answered in full replaces the whole buffer. *)
Lemma readInto_full (t t' : T) (bs : list Z) (n : Z) :
  rwRead t (length bs) = (bs, None, t') -> len bs = n ->
  readInto t (make n) = (bs, n, None, t').
Proof.
  intros Hr <-. unfold readInto. rewrite make_len, Hr.
  rewrite drop_ge; [|rewrite make_len; lia]. rewrite app_nil_r. reflexivity.
Qed.

Lemma readLength_base (t : T) (n : Z) :
  n <> 0x7E -> n <> 0x7F -> readLength t n = (n, None, t).
Proof.
  intros H1 H2. unfold readLength.
  destruct (Z.eqb_spec n 0x7E); [contradiction|].
  destruct (Z.eqb_spec n 0x7F); [contradiction|]. reflexivity.
Qed.

Lemma readLength_16 (t t' : T) (e0 e1 : Z) :
  rwRead t 2 = ([e0; e1], None, t') ->
  readLength t 0x7E = (Z.lor (Z.shiftl e0 0x08) e1, None, t').
Proof.
  intros Hr. unfold readLength. simpl (_ =? _).
  rewrite (readInto_full t t' [e0; e1] 2 Hr eq_refl). reflexivity.
Qed.

Lemma readLength_64 (t t' : T) (e0 e1 e2 e3 e4 e5 e6 e7 : Z) :
  rwRead t 8 = ([e0; e1; e2; e3; e4; e5; e6; e7], None, t') ->
  readLength t 0x7F =
    (Z.lor (Z.lor (Z.lor (Z.lor (Z.lor (Z.lor (Z.lor
       (int_of (Z.shiftl e0 0x38)) (Z.shiftl e1 0x30)) (Z.shiftl e2 0x28))
       (Z.shiftl e3 0x20)) (Z.shiftl e4 0x18)) (Z.shiftl e5 0x10))
       (Z.shiftl e6 0x08)) e7, None, t').
Proof.
  intros Hr. unfold readLength. simpl (_ =? _).
  rewrite (readInto_full t t' [e0; e1; e2; e3; e4; e5; e6; e7] 8 Hr eq_refl).
  reflexivity.
Qed.

(** The data branch when the mask key and the payload are answered in
    full. *)
Lemma readData_full (t t1 t2 t3 : T) (base n : Z) (key body p : list Z) :
  readLength t base = (n, None, t1) ->
  rwRead t1 4 = (key, None, t2) -> length key = 4%nat ->
  rwRead t2 (length body) = (body, None, t3) -> len body = n ->
  n <= maxAlloc ->
  readData t base p = Return (deliver t3 p (unmask key body)).
Proof.
  intros Hl Hk Hk4 Hb Hn Hmax. unfold readData. rewrite Hl.
  rewrite <- Hk4 in Hk.
  rewrite (readInto_full t1 t2 key 4 Hk); [|unfold len; lia].
  pose proof (len_nonneg body) as Hpos.
  destruct (Z.ltb_spec n 0); [lia|].
  destruct (Z.gtb_spec n maxAlloc); [lia|]. cbn [orb].
  rewrite (readInto_full t2 t3 body n Hb Hn).
  unfold deliver, len in *. rewrite length_unmask, Hn.
  destruct (n >? Z.of_nat (length p)); destruct (copy p (unmask key body));
    reflexivity.
Qed.

Lemma readFrames_data (fuel : nat) (t t1 : T) (b0 b1 : Z) (p : list Z) :
  rwRead t 2 = ([b0; b1], None, t1) ->
  Z.land b0 0x0F = opCodeText \/ Z.land b0 0x0F = opCodeBinary ->
  readFrames (S fuel) t p = Some (readData t1 (Z.land b1 0x7F) p).
Proof.
  intros Hr Hop. cbn [readFrames].
  rewrite (readInto_full t t1 [b0; b1] 2 Hr eq_refl).
  cbn [lookup_total list_lookup_total].
  destruct Hop as [-> | ->]; reflexivity.
Qed.

Lemma Read_leftover (fuel : nat) (c : connImpl T) (buf p : list Z) :
  buffer c = Some buf -> Read fuel c p = Some (Return (serve c buf p)).
Proof. intros Hb. unfold Read, serve. rewrite Hb. destruct (copy p buf). reflexivity. Qed.

Lemma Read_decode (fuel : nat) (c : connImpl T) (p : list Z) :
  buffer c = None -> Read fuel c p = readFrames fuel (rw c) p.
Proof. intros Hb. unfold Read. rewrite Hb. reflexivity. Qed.

(** What [deliver] returns: no error, the transport as it is, and the
    payload split between the destination and the leftover buffer. *)
Lemma deliver_spec (t : T) (p payload : list Z) :
  err (deliver t p payload) = None
  /\ rw (self (deliver t p payload)) = t
  /\ count (deliver t p payload) = Z.min (len p) (len payload)
  /\ delivered (deliver t p payload) ++ leftover (self (deliver t p payload))
     = payload
  /\ (buffer (self (deliver t p payload)) = None <-> len payload <= len p).
Proof.
  unfold deliver, delivered, leftover.
  pose proof (copy_take_drop p payload) as Htd.
  pose proof (copy_count p payload) as Hc.
  destruct (copy p payload) as [p' n]. simpl in Htd, Hc.
  destruct (Z.gtb_spec (len payload) (len p)) as [Hgt|Hle]; simpl.
  - repeat split; try assumption; try lia; try discriminate.
  - assert (n = len payload) as -> by lia.
    repeat split; try reflexivity; try lia.
    unfold slice_from, len in *. rewrite Nat2Z.id, drop_all in Htd.
    rewrite Nat2Z.id. exact Htd.
Qed.

(** What [serve] returns. *)
Lemma serve_spec (c : connImpl T) (buf p : list Z) :
  err (serve c buf p) = None
  /\ rw (self (serve c buf p)) = rw c
  /\ count (serve c buf p) = Z.min (len p) (len buf)
  /\ delivered (serve c buf p) ++ leftover (self (serve c buf p)) = buf
  /\ (buffer (self (serve c buf p)) = None <-> len buf <= len p).
Proof.
  unfold serve, delivered, leftover.
  pose proof (copy_take_drop p buf) as Htd.
  pose proof (copy_count p buf) as Hc.
  destruct (copy p buf) as [p' n]. simpl in Htd, Hc.
  destruct (Z.eqb_spec n (len buf)) as [->|Hne]; simpl.
  - repeat split; try reflexivity; try lia.
    unfold slice_from, len in *. rewrite Nat2Z.id, drop_all in Htd.
    rewrite Nat2Z.id. exact Htd.
  - repeat split; try assumption; try lia; try discriminate.
Qed.

End Reading.

(** ** What every call to [Read] guarantees *)

Section Guarantees.
Context {T : Type} `{!Transport T} `{!TransportLaws T}.

Lemma decoded_error (t t' : T) (p : list Z) (e : option error) :
  sent t' = sent t -> decoded t p (mkRead p 0 e (mkConn t' None)).
Proof.
  intros Hs. unfold decoded. simpl.
  split; [intros _; auto | split; [exact Hs | discriminate]].
Qed.

Lemma readLength_sent (t : T) (n : Z) : sent (readLength t n).2 = sent t.
Proof.
  unfold readLength.
  destruct (n =? 0x7E).
  - pose proof (readInto_sent t (make 2)) as Hs.
    destruct (readInto t (make 2)) as [[[buf k] e] t']. destruct e; exact Hs.
  - destruct (n =? 0x7F); [|reflexivity].
    pose proof (readInto_sent t (make 8)) as Hs.
    destruct (readInto t (make 8)) as [[[buf k] e] t']. destruct e; exact Hs.
Qed.

Lemma readData_decoded (t : T) (base : Z) (p : list Z) (r : ReadResult T) :
  readData t base p = Return r -> decoded t p r.
Proof.
  unfold readData. pose proof (readLength_sent t base) as Hs1.
  destruct (readLength t base) as [[n e1] t1]. simpl in Hs1.
  destruct e1 as [e1|].
  { intros [= <-]. apply decoded_error. exact Hs1. }
  pose proof (readInto_sent t1 (make 4)) as Hs2.
  destruct (readInto t1 (make 4)) as [[[mask k2] e2] t2]. simpl in Hs2.
  destruct e2 as [e2|].
  { intros [= <-]. apply decoded_error. congruence. }
  destruct (Z.ltb_spec n 0) as [|Hn]; [discriminate|].
  destruct (n >? maxAlloc); [discriminate|]. cbn [orb].
  pose proof (readInto_sent t2 (make n)) as Hs3.
  pose proof (readInto_length t2 (make n)) as Hlen.
  destruct (readInto t2 (make n)) as [[[payload k3] e3] t3]. simpl in Hs3, Hlen.
  destruct e3 as [e3|].
  { intros [= <-]. apply decoded_error. congruence. }
  rewrite length_make in Hlen.
  assert (length (unmask mask payload) = Z.to_nat n) as Hlen'
    by (rewrite length_unmask; exact Hlen).
  unfold copy.
  destruct (Z.gtb_spec n (len p)) as [Hgt|Hle]; intros [= <-];
    unfold decoded; simpl; (split; [intros He; contradiction|]);
    (split; [congruence|]); [|discriminate].
  intros [= Hnil]. apply (f_equal length) in Hnil.
  unfold slice_from, len in *. rewrite Nat2Z.id, length_drop in Hnil.
  simpl in Hnil. lia.
Qed.

Lemma readFrames_decoded (fuel : nat) (t : T) (p : list Z) (r : ReadResult T) :
  readFrames fuel t p = Some (Return r) -> decoded t p r.
Proof.
  revert t. induction fuel as [|fuel IH]; intros t; [discriminate|].
  cbn [readFrames]. pose proof (readInto_sent t (make 2)) as Hs.
  destruct (readInto t (make 2)) as [[[frame k] e] t1]. simpl in Hs.
  destruct e as [e|].
  { intros [= <-]. apply decoded_error. exact Hs. }
  destruct (_ || _).
  { intros [= Hd]. apply readData_decoded in Hd.
    unfold decoded in *. rewrite <- Hs. exact Hd. }
  destruct (_ || _).
  { intros Hr. apply IH in Hr. unfold decoded in *. rewrite <- Hs. exact Hr. }
  destruct (_ =? _); intros [= <-]; apply decoded_error; exact Hs.
Qed.

(** [Read] never hands bytes to the writer. *)
Lemma Read_sent (fuel : nat) (c : connImpl T) (p : list Z) (r : ReadResult T) :
  Read fuel c p = Some (Return r) -> sent (rw (self r)) = sent (rw c).
Proof.
  destruct (buffer c) as [buf|] eqn:Hb.
  - rewrite (Read_leftover fuel c buf p Hb). intros [= <-].
    apply (f_equal sent). apply (serve_spec c buf p).
  - rewrite (Read_decode fuel c p Hb). intros Hr.
    apply (readFrames_decoded fuel (rw c) p r Hr).
Qed.

(** A buffer that is kept by [Read] is never the empty slice. *)
Lemma Read_buffer (fuel : nat) (c : connImpl T) (p : list Z) (r : ReadResult T) :
  buffer c <> Some [] -> Read fuel c p = Some (Return r) ->
  buffer (self r) <> Some [].
Proof.
  intros Hne. destruct (buffer c) as [buf|] eqn:Hb.
  - rewrite (Read_leftover fuel c buf p Hb). intros [= <-].
    unfold serve, copy.
    destruct (Z.eqb_spec (Z.of_nat (length p `min` length buf)) (len buf))
      as [|Hn]; simpl; [discriminate|].
    intros [= Hnil]. apply (f_equal length) in Hnil.
    unfold slice_from, len in *. rewrite Nat2Z.id, length_drop in Hnil.
    simpl in Hnil. lia.
  - rewrite (Read_decode fuel c p Hb). intros Hr.
    apply (readFrames_decoded fuel (rw c) p r Hr).
Qed.

Lemma reachable_buffer (c : connImpl T) : reachable c -> buffer c <> Some [].
Proof.
  induction 1 as [t|c fuel p r Hc IH Hr|c p Hc IH|c Hc IH].
  - discriminate.
  - exact (Read_buffer fuel c p r IH Hr).
  - unfold Write. destruct (rwWrite (rw c) _) as [[n1 e1] t1].
    destruct e1; [exact IH|]. destruct (rwWrite t1 p) as [[n2 e2] t2].
    destruct e2; [exact IH|]. destruct (rwFlush t2). exact IH.
  - unfold Close. destruct (connClose (rw c)). exact IH.
Qed.

End Guarantees.

(** ** Protocol errors, error atomicity and the leftover buffer *)

Section Dispatch.
Context {T : Type} `{!Transport T} `{!TransportLaws T}.

(** C9. Protocol-error dispatch: when the header read succeeds and the
    low four bits of its first byte are the close opcode, [Read] fails
    with "connection closed"; when they are none of text, binary, ping,
    pong and close, it fails with "unknown opcode".  The two errors
    differ, the count is 0, the destination is untouched, no buffer is
    kept, and nothing is sent. *)
Theorem protocol_error_dispatch
    (fuel : nat) (t t1 : T) (b0 : Z) (rest p : list Z) :
  rwRead t 2 = (b0 :: rest, None, t1) ->
  (Z.land b0 0x0F = opCodeClose ->
     Read (S fuel) (mkConn t None) p
     = Some (Return (mkRead p 0 (Some (errors_New "connection closed"))
                       (mkConn t1 None))))
  /\ (Z.land b0 0x0F <> opCodeText -> Z.land b0 0x0F <> opCodeBinary ->
      Z.land b0 0x0F <> opCodePing -> Z.land b0 0x0F <> opCodePong ->
      Z.land b0 0x0F <> opCodeClose ->
     Read (S fuel) (mkConn t None) p
     = Some (Return (mkRead p 0 (Some (errors_New "unknown opcode"))
                       (mkConn t1 None))))
  /\ errors_New "connection closed" <> errors_New "unknown opcode"
  /\ sent t1 = sent t.
Proof.
  intros Hr.
  assert (readFrames (S fuel) t p =
          let opCode := Z.land b0 0x0F in
          if (opCode =? opCodeText) || (opCode =? opCodeBinary) then
            Some (readData t1
                    (Z.land (((b0 :: rest) ++ drop (length (b0 :: rest)) (make 2))
                               !!! 1%nat) 0x7F) p)
          else if (opCode =? opCodePing) || (opCode =? opCodePong) then
            readFrames fuel t1 p
          else if opCode =? opCodeClose then
            Some (Return (mkRead p 0 (Some (errors_New "connection closed"))
                            (mkConn t1 None)))
          else
            Some (Return (mkRead p 0 (Some (errors_New "unknown opcode"))
                            (mkConn t1 None)))) as Hstep.
  { cbn [readFrames]. unfold readInto. change (length (make 2)) with 2%nat.
    rewrite Hr. reflexivity. }
  repeat split.
  - intros Hop. unfold Read. cbn [buffer rw]. rewrite Hstep. cbn zeta.
    rewrite Hop. reflexivity.
  - intros H1 H2 H3 H4 H5. unfold Read. cbn [buffer rw]. rewrite Hstep. cbn zeta.
    destruct (Z.eqb_spec (Z.land b0 0x0F) opCodeText); [contradiction|].
    destruct (Z.eqb_spec (Z.land b0 0x0F) opCodeBinary); [contradiction|].
    destruct (Z.eqb_spec (Z.land b0 0x0F) opCodePing); [contradiction|].
    destruct (Z.eqb_spec (Z.land b0 0x0F) opCodePong); [contradiction|].
    destruct (Z.eqb_spec (Z.land b0 0x0F) opCodeClose); [contradiction|].
    reflexivity.
  - discriminate.
  - pose proof (rwRead_sent t 2) as Hs. rewrite Hr in Hs. exact Hs.
Qed.

(** C10. Error atomicity: a call to [Read] that returns an error returns
    count 0 and leaves the leftover buffer as it was, namely nil; it also
    leaves the destination untouched.  A call on a connection with a
    leftover buffer returns, and with a nil error. *)
Theorem Read_error_atomicity (fuel : nat) (c : connImpl T) (p : list Z) :
  (forall r, Read fuel c p = Some (Return r) -> err r <> None ->
     count r = 0 /\ buffer (self r) = buffer c /\ buffer c = None /\ dst r = p)
  /\ (forall buf, buffer c = Some buf ->
        exists r, Read fuel c p = Some (Return r) /\ err r = None).
Proof.
  split.
  - intros r Hr He. destruct (buffer c) as [buf|] eqn:Hb.
    + rewrite (Read_leftover fuel c buf p Hb) in Hr. injection Hr as <-.
      destruct He. apply (serve_spec c buf p).
    + rewrite (Read_decode fuel c p Hb) in Hr.
      destruct (readFrames_decoded fuel (rw c) p r Hr) as (Herr & _ & _).
      destruct (Herr He) as (? & ? & ?). repeat split; congruence.
  - intros buf Hb. exists (serve c buf p). split.
    + apply Read_leftover, Hb.
    + apply (serve_spec c buf p).
Qed.

(** C7. Leftover-buffer invariant: in a reachable state with a leftover
    buffer [buf], that buffer is not empty and [Read] returns
    [min(len(p), len(buf))] bytes of it, keeps the rest, and leaves the
    transport as it is; whenever a call changes the transport, the
    leftover buffer was nil when it was made. *)
Theorem leftover_drained_first (fuel : nat) (c : connImpl T) (buf p : list Z) :
  reachable c -> buffer c = Some buf ->
  buf <> []
  /\ (exists r, Read fuel c p = Some (Return r)
        /\ err r = None
        /\ count r = Z.min (len p) (len buf)
        /\ delivered r = take (Z.to_nat (count r)) buf
        /\ leftover (self r) = drop (Z.to_nat (count r)) buf
        /\ rw (self r) = rw c)
  /\ (forall fuel' c' p' r',
        Read fuel' c' p' = Some (Return r') -> rw (self r') <> rw c' ->
        buffer c' = None).
Proof.
  intros Hc Hb. split; [|split].
  - intros ->. apply (reachable_buffer c Hc). exact Hb.
  - exists (serve c buf p).
    destruct (serve_spec c buf p) as (He & Hrw & Hn & Hsplit & _).
    split; [apply Read_leftover, Hb|]. repeat split; try assumption.
    + unfold delivered, serve, copy. simpl. rewrite Nat2Z.id.
      rewrite take_app_le; [|rewrite length_take; lia].
      rewrite take_take. f_equal. lia.
    + unfold leftover, serve, copy, slice_from, len. simpl.
      destruct (Z.eqb_spec (Z.of_nat (length p `min` length buf))
                  (Z.of_nat (length buf))) as [Heq|Hne]; simpl.
      * rewrite Nat2Z.id, drop_ge; [reflexivity|lia].
      * reflexivity.
  - intros fuel' c' p' r' Hr Hrw. destruct (buffer c') as [buf'|] eqn:Hb';
      [|reflexivity].
    rewrite (Read_leftover fuel' c' buf' p' Hb') in Hr. injection Hr as <-.
    destruct Hrw. apply (serve_spec c' buf' p').
Qed.

End Dispatch.

(** ** The properties at concrete connections *)

Section Concrete.

Lemma protocol_error_dispatch_witness :
  Read 1 (receiving [[0x88; 0x80; 1; 2; 3; 4]]) (make 4)
  = Some (Return (mkRead (make 4) 0 (Some (errors_New "connection closed"))
                    (mkConn (mkMem [[1; 2; 3; 4]] [] [] false) None)))
  /\ Read 1 (receiving [[0x83; 0x80; 1; 2; 3; 4]]) (make 4)
     = Some (Return (mkRead (make 4) 0 (Some (errors_New "unknown opcode"))
                       (mkConn (mkMem [[1; 2; 3; 4]] [] [] false) None))).
Proof.
  split.
  - apply (proj1 (@protocol_error_dispatch memConn memTransport memLaws 0
             (mkMem [[0x88; 0x80; 1; 2; 3; 4]] [] [] false)
             (mkMem [[1; 2; 3; 4]] [] [] false) 0x88 [0x80] (make 4) ltac:(reflexivity))).
    reflexivity.
  - apply (proj1 (proj2 (@protocol_error_dispatch memConn memTransport memLaws 0
             (mkMem [[0x83; 0x80; 1; 2; 3; 4]] [] [] false)
             (mkMem [[1; 2; 3; 4]] [] [] false) 0x83 [0x80] (make 4) ltac:(reflexivity))));
      vm_compute; discriminate.
Defined.

Lemma Read_error_atomicity_witness :
  let r := mkRead (make 4) 0 (Some (errors_New "connection closed"))
             (mkConn (mkMem [[1; 2; 3; 4]] [] [] false) None) in
  (count r = 0 /\ buffer (self r) = None /\
   buffer (receiving [[0x88; 0x80; 1; 2; 3; 4]]) = None /\ dst r = make 4)
  /\ exists r', Read 0 (mkConn (mkMem [] [] [] false) (Some [108; 108; 111])) (make 2)
                = Some (Return r') /\ err r' = None.
Proof.
  split.
  - apply (proj1 (Read_error_atomicity 1 (receiving [[0x88; 0x80; 1; 2; 3; 4]])
                    (make 4))); [reflexivity | discriminate].
  - apply (proj2 (Read_error_atomicity 0
                    (mkConn (mkMem [] [] [] false) (Some [108; 108; 111]))
                    (make 2)) [108; 108; 111]).
    reflexivity.
Defined.

Lemma helloPartial_reachable : reachable helloPartial.
Proof.
  apply (reach_Read (receiving [helloFrame]) 1 (make 2)
           (mkRead [72; 101] 2 None helloPartial)).
  - apply reach_Upgrade.
  - reflexivity.
Qed.

Lemma leftover_drained_first_witness :
  exists r, Read 0 helloPartial (make 2) = Some (Return r)
    /\ err r = None
    /\ count r = Z.min (len (make 2)) (len [108; 108; 111])
    /\ delivered r = take (Z.to_nat (count r)) [108; 108; 111]
    /\ leftover (self r) = drop (Z.to_nat (count r)) [108; 108; 111]
    /\ rw (self r) = rw helloPartial.
Proof.
  apply (proj1 (proj2 (@leftover_drained_first memConn memTransport memLaws 0 helloPartial [108; 108; 111]
                         (make 2) helloPartial_reachable ltac:(reflexivity)))).
Defined.

End Concrete.

(** ** Frames that are delivered in full *)

Section RoundTrip.
Context {T : Type} `{!Transport T}.

(** A data frame whose reads are all answered in full is decoded to its
    unmasked body, split between the destination and the leftover
    buffer. *)
Lemma Read_data_frame (fuel : nat) (t t1 t2 t3 t4 : T)
    (b0 b1 n : Z) (key body p : list Z) :
  rwRead t 2 = ([b0; b1], None, t1) ->
  Z.land b0 0x0F = opCodeText \/ Z.land b0 0x0F = opCodeBinary ->
  readLength t1 (Z.land b1 0x7F) = (n, None, t2) ->
  rwRead t2 4 = (key, None, t3) -> length key = 4%nat ->
  rwRead t3 (length body) = (body, None, t4) -> len body = n ->
  n <= maxAlloc ->
  Read (S fuel) (mkConn t None) p
  = Some (Return (deliver t4 p (unmask key body))).
Proof.
  intros Hh Hop Hl Hk Hk4 Hb Hn Hmax. unfold Read. cbn [buffer rw].
  rewrite (readFrames_data fuel t t1 b0 b1 p Hh Hop).
  rewrite (readData_full t1 t2 t3 t4 _ n key body p Hl Hk Hk4 Hb Hn Hmax).
  reflexivity.
Qed.

(** The length field of [getDataFrame] is the one that [readLength]
    decodes. *)
Lemma lor_add (x lo k : Z) :
  0 <= k -> x mod 2 ^ k = 0 -> 0 <= lo < 2 ^ k -> Z.lor x lo = x + lo.
Proof.
  intros Hk Hx Hlo.
  rewrite <- Z.lxor_lor, <- Z.add_nocarry_lxor; try reflexivity.
  all: apply Z.bits_inj'; intros n Hn; rewrite Z.land_spec, Z.bits_0.
  all: destruct (Z.lt_ge_cases n k) as [Hlt|Hge].
  all: try (rewrite <- (Z.mod_pow2_bits_low x k n) by lia;
            rewrite Hx, Z.bits_0; reflexivity).
  all: rewrite <- (Z.mod_small lo (2 ^ k)) by lia;
       rewrite (Z.mod_pow2_bits_high lo k n) by lia; apply Bool.andb_false_r.
Qed.

Lemma length_16 (size : Z) :
  0 <= size <= 65535 ->
  Z.lor (Z.shiftl (byte_of (Z.shiftr size 0x08)) 0x08)
        (byte_of (Z.land size 0xFF)) = size.
Proof.
  intros H. unfold byte_of.
  change 0xFF with (Z.ones 8). rewrite Z.land_ones by lia.
  rewrite Z.shiftr_div_pow2, Z.shiftl_mul_pow2 by lia.
  change (2 ^ 8) with 256.
  rewrite (lor_add _ _ 8); change (2 ^ 8) with 256; try lia;
    Z.div_mod_to_equations; lia.
Qed.

(** [x] is a multiple of [2 ^ k] when the division is exact. *)
Ltac shifted :=
  match goal with
  | |- ?x mod 2 ^ ?k = 0 =>
      replace x with (x / 2 ^ k * 2 ^ k);
      [apply Z.mod_mul; lia | Z.div_mod_to_equations; lia]
  end.

(** Quotient and remainder by 256. *)
Ltac digit q b Hq Hb :=
  match type of q with
  | Z =>
      assert (q = 256 * (q / 256) + q mod 256 /\ 0 <= q mod 256 < 256)
        as [Hq Hb]
        by (split; [apply Z.div_mod; lia | apply Z.mod_pos_bound; lia]);
      set (b := q mod 256) in *
  end.

Lemma length_64 (size : Z) :
  0 <= size < 2 ^ 63 ->
  Z.lor (Z.lor (Z.lor (Z.lor (Z.lor (Z.lor (Z.lor
    (int_of (Z.shiftl (byte_of (Z.shiftr size 0x38)) 0x38))
    (Z.shiftl (byte_of (Z.shiftr size 0x30)) 0x30))
    (Z.shiftl (byte_of (Z.shiftr size 0x28)) 0x28))
    (Z.shiftl (byte_of (Z.shiftr size 0x20)) 0x20))
    (Z.shiftl (byte_of (Z.shiftr size 0x18)) 0x18))
    (Z.shiftl (byte_of (Z.shiftr size 0x10)) 0x10))
    (Z.shiftl (byte_of (Z.shiftr size 0x08)) 0x08))
    (byte_of (Z.land size 0xFF)) = size.
Proof.
  intros H. unfold byte_of, int_of.
  change 0xFF with (Z.ones 8). rewrite Z.land_ones by lia.
  rewrite !Z.shiftr_div_pow2, !Z.shiftl_mul_pow2 by lia.
  change (2 ^ 8) with 256 in *. change (2 ^ 16) with (256 * 256) in *.
  change (2 ^ 24) with (256 * (256 * 256)).
  change (2 ^ 32) with (256 * (256 * (256 * 256))).
  change (2 ^ 40) with (256 * (256 * (256 * (256 * 256)))).
  change (2 ^ 48) with (256 * (256 * (256 * (256 * (256 * 256))))).
  change (2 ^ 56) with (256 * (256 * (256 * (256 * (256 * (256 * 256)))))).
  rewrite <- !Z.div_div by lia.
  set (q1 := size / 256). set (q2 := q1 / 256). set (q3 := q2 / 256).
  set (q4 := q3 / 256). set (q5 := q4 / 256). set (q6 := q5 / 256).
  set (q7 := q6 / 256).
  digit size b0 E0 B0. digit q1 b1 E1 B1. digit q2 b2 E2 B2.
  digit q3 b3 E3 B3. digit q4 b4 E4 B4. digit q5 b5 E5 B5.
  digit q6 b6 E6 B6.
  fold q1 in E0. fold q2 in E1. fold q3 in E2. fold q4 in E3.
  fold q5 in E4. fold q6 in E5. fold q7 in E6.
  assert (0 <= q7 < 128) as B7 by lia.
  rewrite (Z.mod_small q7 256) by lia.
  rewrite (Z.mod_small (_ + 2 ^ 63)) by lia.
  replace (q7 * (256 * (256 * (256 * (256 * (256 * (256 * 256))))))
           + 2 ^ 63 - 2 ^ 63)
    with (q7 * 2 ^ 56) by lia.
  rewrite (Z.mod_small b0 256) by lia.
  rewrite (lor_add (q7 * 2 ^ 56) _ 56) by (try lia; apply Z.mod_mul; lia).
  rewrite (lor_add (_ + _) _ 48); [|lia|shifted|lia].
  rewrite (lor_add (_ + _ + _) _ 40); [|lia|shifted|lia].
  rewrite (lor_add (_ + _ + _ + _) _ 32); [|lia|shifted|lia].
  rewrite (lor_add (_ + _ + _ + _ + _) _ 24); [|lia|shifted|lia].
  rewrite (lor_add (_ + _ + _ + _ + _ + _) _ 16); [|lia|shifted|lia].
  rewrite (lor_add (_ + _ + _ + _ + _ + _ + _) _ 8); [|lia|shifted|lia].
  lia.
Qed.

(** Round trip through a masked frame, for every length that [make]
    allows: the header of [getDataFrame], a 4-byte key and the masked
    payload, delivered in full, are decoded to the payload. *)
Lemma Read_getDataFrame (fuel : nat) (t t' : T) (key payload p : list Z) :
  len payload <= maxAlloc ->
  length key = 4%nat ->
  delivers t
    (frameReads (getDataFrame (len payload)) key (unmask key payload)) t' ->
  Read (S fuel) (mkConn t None) p = Some (Return (deliver t' p payload)).
Proof.
  intros Hmax Hk Hd. pose proof (len_nonneg payload) as Hpos.
  assert (len payload < 2 ^ 63) as Hint by (unfold maxAlloc in Hmax; lia).
  assert (len (unmask key payload) = len payload) as Hbody
    by (unfold len; rewrite length_unmask; reflexivity).
  rewrite <- (unmask_unmask key payload) at 1.
  unfold getDataFrame in Hd.
  change (Z.lor 0x80 (Z.land (byte_of opCodeText) 0x0F)) with 0x81 in Hd.
  destruct (Z.leb_spec (len payload) 125) as [H125|H125];
    [|destruct (Z.leb_spec (len payload) 65535) as [H16|H16]];
    cbn [frameReads take drop app delivers length] in Hd.
  - destruct Hd as (t1 & H1 & t2 & H2 & t3 & H3 & <-).
    rewrite Hk in H2.
    refine (Read_data_frame fuel t t1 t1 t2 t3 _ _ (len payload) key _ p
              H1 _ _ H2 Hk H3 Hbody Hmax); [left; reflexivity|].
    assert (Z.land (byte_of (len payload)) 0x7F = len payload) as ->.
    { unfold byte_of. rewrite Z.mod_small by lia.
      change 0x7F with (Z.ones 7). rewrite Z.land_ones by lia.
      apply Z.mod_small. lia. }
    apply readLength_base; lia.
  - destruct Hd as (t1 & H1 & t2 & H2 & t3 & H3 & t4 & H4 & <-).
    rewrite Hk in H3.
    refine (Read_data_frame fuel t t1 t2 t3 t4 _ _ (len payload) key _ p
              H1 _ _ H3 Hk H4 Hbody Hmax); [left; reflexivity|].
    change (Z.land 126 0x7F) with 0x7E.
    rewrite (readLength_16 t1 t2 _ _ H2), length_16 by lia. reflexivity.
  - destruct Hd as (t1 & H1 & t2 & H2 & t3 & H3 & t4 & H4 & <-).
    rewrite Hk in H3.
    refine (Read_data_frame fuel t t1 t2 t3 t4 _ _ (len payload) key _ p
              H1 _ _ H3 Hk H4 Hbody Hmax); [left; reflexivity|].
    change (Z.land 127 0x7F) with 0x7F.
    rewrite (readLength_64 t1 t2 _ _ _ _ _ _ _ _ H2), length_64 by lia.
    reflexivity.
Qed.

(** C1, as amended. Round trip of the frame codec through a masked frame:
    for a payload of length 0, 1, 125, 126, 65535 or 65536 and a 4-byte
    key, when the header of [getDataFrame], the key and the masked
    payload are delivered in full, [Read] returns the payload without
    error (what does not fit the destination is kept as leftover); and
    the header follows the width rule. *)
Theorem masked_round_trip (fuel : nat) (t t' : T) (key payload p : list Z) :
  len payload = 0 \/ len payload = 1 \/ len payload = 125 \/
  len payload = 126 \/ len payload = 65535 \/ len payload = 65536 ->
  length key = 4%nat ->
  delivers t
    (frameReads (getDataFrame (len payload)) key (unmask key payload)) t' ->
  (exists r, Read (S fuel) (mkConn t None) p = Some (Return r)
     /\ err r = None
     /\ delivered r ++ leftover (self r) = payload
     /\ count r = Z.min (len p) (len payload)
     /\ rw (self r) = t')
  /\ getDataFrame 0 = [0x81; 0]
  /\ getDataFrame 1 = [0x81; 1]
  /\ getDataFrame 125 = [0x81; 125]
  /\ getDataFrame 126 = [0x81; 126; 0; 126]
  /\ getDataFrame 65535 = [0x81; 126; 0xFF; 0xFF]
  /\ getDataFrame 65536 = [0x81; 127; 0; 0; 0; 0; 0; 1; 0; 0].
Proof.
  intros Hlen Hk Hd. split; [|repeat split; reflexivity].
  exists (deliver t' p payload).
  destruct (deliver_spec t' p payload) as (He & Hrw & Hc & Hsplit & _).
  repeat split; try assumption.
  apply (Read_getDataFrame fuel t t' key payload p);
    [unfold maxAlloc; lia | exact Hk | exact Hd].
Qed.

End RoundTrip.

(** ** Partial reads *)

Section PartialReads.
Context {T : Type} `{!Transport T}.

Lemma copy_short (p src : list Z) :
  (length p <= length src)%nat ->
  copy p src = (take (length p) src, len p).
Proof.
  intros Hle. unfold copy, len. rewrite Nat.min_l by exact Hle.
  rewrite drop_all, app_nil_r. reflexivity.
Qed.

Lemma deliver_partial (t : T) (p payload : list Z) :
  (length p < length payload)%nat ->
  deliver t p payload
  = mkRead (take (length p) payload) (len p) None
      (mkConn t (Some (drop (length p) payload))).
Proof.
  intros Hlt. unfold deliver. rewrite copy_short by lia.
  destruct (Z.gtb_spec (len payload) (len p)) as [_|Hle]; [|unfold len in Hle; lia].
  unfold slice_from, len. rewrite Nat2Z.id. reflexivity.
Qed.

Lemma serve_partial (c : connImpl T) (buf p : list Z) :
  (length p < length buf)%nat ->
  serve c buf p
  = mkRead (take (length p) buf) (len p) None
      (mkConn (rw c) (Some (drop (length p) buf))).
Proof.
  intros Hlt. unfold serve. rewrite copy_short by lia.
  destruct (Z.eqb_spec (len p) (len buf)) as [Heq|_]; [unfold len in Heq; lia|].
  unfold slice_from, len. rewrite Nat2Z.id. reflexivity.
Qed.

Lemma serve_last (c : connImpl T) (buf p : list Z) :
  length p = length buf ->
  serve c buf p = mkRead buf (len p) None (mkConn (rw c) None).
Proof.
  intros Heq. unfold serve. rewrite copy_short by lia.
  rewrite Heq, firstn_all. unfold len. rewrite Heq, Z.eqb_refl. reflexivity.
Qed.

(** Draining a leftover buffer of [(m + 1) * k] bytes through
    destinations of [k] bytes takes [m + 1] calls. *)
Lemma drain_leftover (fuel k : nat) (t : T) :
  (0 < k)%nat ->
  forall (m : nat) (buf : list Z) (dsts : list (list Z)),
  length buf = (S m * k)%nat -> length dsts = S m ->
  Forall (fun p => length p = k) dsts ->
  exists rs,
    readEach fuel (mkConn t (Some buf)) dsts = Some (rs, mkConn t None)
    /\ length rs = S m
    /\ Forall (fun r => count r = Z.of_nat k /\ err r = None) rs
    /\ concat (delivered <$> rs) = buf
    /\ (forall i r, rs !! i = Some r -> (i < m)%nat ->
          buffer (self r) = Some (drop (S i * k) buf)).
Proof.
  intros Hk. induction m as [|m IH]; intros buf dsts Hbuf Hdsts Hall.
  - destruct dsts as [|p [|? ?]]; try discriminate.
    apply Forall_cons in Hall as [Hp _]. simpl in Hbuf.
    exists [mkRead buf (len p) None (mkConn t None)].
    cbn [readEach]. rewrite (Read_leftover fuel (mkConn t (Some buf)) buf p eq_refl).
    rewrite serve_last by lia. cbn [self rw].
    split; [reflexivity|]. split; [reflexivity|].
    split; [repeat constructor; unfold len; simpl; lia|].
    split; [|intros i r _ Hi; lia].
    unfold delivered, len. simpl. rewrite Nat2Z.id, app_nil_r.
    apply take_ge. lia.
  - destruct dsts as [|p dsts]; [discriminate|].
    apply Forall_cons in Hall as [Hp Hall]. injection Hdsts as Hdsts.
    destruct (IH (drop k buf) dsts) as (rs & Hrs & Hlen & Hcount & Hcat & Hmid);
      [rewrite length_drop; lia | exact Hdsts | exact Hall |].
    exists (mkRead (take k buf) (len p) None (mkConn t (Some (drop k buf))) :: rs).
    cbn [readEach]. rewrite (Read_leftover fuel (mkConn t (Some buf)) buf p eq_refl).
    rewrite serve_partial by lia. cbn [self rw]. rewrite Hp, Hrs.
    split; [reflexivity|]. split; [simpl; lia|].
    split; [constructor; [unfold len; simpl; split; [lia|reflexivity] | exact Hcount]|].
    split.
    + rewrite fmap_cons. cbn [concat]. rewrite Hcat.
      unfold delivered, len. simpl. rewrite Hp, Nat2Z.id, take_take, Nat.min_id.
      apply take_drop.
    + intros [|i] r Hr Hi.
      * injection Hr as <-. simpl. rewrite Nat.add_0_r. reflexivity.
      * simpl in Hr. rewrite (Hmid i r Hr) by lia. rewrite drop_drop.
        do 2 f_equal; lia.
Qed.

(** Partial-read reconstruction when every read of the frame is answered
    in full: a text or binary frame with a 1000-byte payload is read
    through ten destinations of 100 bytes in exactly ten calls: each
    returns 100 bytes without error, the chunks concatenated are the
    payload, a leftover buffer remains after each of the first nine calls
    and none after the tenth, when the transport stands just behind the
    frame. *)
Lemma partial_read_reconstruction
    (fuel : nat) (t t' : T) (b0 b1 : Z) (key payload : list Z)
    (dsts : list (list Z)) :
  Z.land b0 0x0F = opCodeText \/ Z.land b0 0x0F = opCodeBinary ->
  Z.land b1 0x7F = 0x7E ->
  length key = 4%nat ->
  length payload = 1000%nat ->
  delivers t [[b0; b1]; [0x03; 0xE8]; key; unmask key payload] t' ->
  length dsts = 10%nat ->
  Forall (fun p => length p = 100%nat) dsts ->
  exists rs,
    readEach (S fuel) (mkConn t None) dsts = Some (rs, mkConn t' None)
    /\ length rs = 10%nat
    /\ Forall (fun r => count r = 100 /\ err r = None) rs
    /\ concat (delivered <$> rs) = payload
    /\ (forall i r, rs !! i = Some r -> (i < 9)%nat ->
          buffer (self r) = Some (drop (S i * 100) payload)
          /\ drop (S i * 100) payload <> []).
Proof.
  intros Hop Hb1 Hk Hpl Hd Hdsts Hall.
  cbn [delivers length] in Hd.
  destruct Hd as (t1 & H1 & t2 & H2 & t3 & H3 & t4 & H4 & <-).
  rewrite Hk in H3.
  destruct dsts as [|p dsts]; [discriminate|].
  apply Forall_cons in Hall as [Hp Hall]. injection Hdsts as Hdsts.
  assert (Read (S fuel) (mkConn t None) p
          = Some (Return (deliver t4 p payload))) as Hfirst.
  { rewrite <- (unmask_unmask key payload) at 1.
    refine (Read_data_frame fuel t t1 t2 t3 t4 b0 b1 1000 key _ p
              H1 Hop _ H3 Hk H4 _ _).
    - rewrite Hb1. apply (readLength_16 t1 t2 0x03 0xE8 H2).
    - unfold len. rewrite length_unmask, Hpl. reflexivity.
    - unfold maxAlloc. lia. }
  rewrite deliver_partial in Hfirst by lia. rewrite Hp in Hfirst.
  destruct (drain_leftover (S fuel) 100 t4 ltac:(lia) 8 (drop 100 payload) dsts)
    as (rs & Hrs & Hlen & Hcount & Hcat & Hmid);
    [rewrite length_drop; lia | exact Hdsts | exact Hall |].
  exists (mkRead (take 100 payload) (len p) None
            (mkConn t4 (Some (drop 100 payload))) :: rs).
  cbn [readEach]. rewrite Hfirst. cbn [self]. rewrite Hrs.
  split; [reflexivity|]. split; [simpl; lia|].
  split; [constructor; [unfold len; simpl; split; [lia|reflexivity] | exact Hcount]|].
  split.
  - rewrite fmap_cons. cbn [concat]. rewrite Hcat.
    unfold delivered, len. cbn [count dst]. rewrite Hp, Nat2Z.id, take_take, Nat.min_id.
    apply take_drop.
  - intros i r Hr Hi. split.
    + destruct i as [|i].
      * injection Hr as <-. reflexivity.
      * cbn [lookup list_lookup] in Hr. rewrite (Hmid i r Hr) by lia.
        rewrite drop_drop. do 2 f_equal; lia.
    + intros Hnil. apply (f_equal length) in Hnil.
      rewrite length_drop in Hnil. simpl in Hnil. lia.
Qed.

End PartialReads.

(** ** Frames at concrete connections *)

Section ConcreteFrames.

Lemma masked_round_trip_witness :
  exists r, Read 1 (receiving [maskedFrame126]) (make 200) = Some (Return r)
    /\ err r = None
    /\ delivered r ++ leftover (self r) = take 126 thousand
    /\ count r = Z.min (len (make 200)) (len (take 126 thousand))
    /\ rw (self r) = mkMem [] [] [] false.
Proof.
  apply (proj1 (@masked_round_trip memConn memTransport 0
                  (mkMem [maskedFrame126] [] [] false) (mkMem [] [] [] false)
                  sampleKey (take 126 thousand) (make 200)
                  ltac:(right; right; right; left; reflexivity)
                  ltac:(reflexivity)
                  ltac:(vm_compute (getDataFrame _); cbn [frameReads take drop app delivers];
                        exists (mkMem [drop 2 maskedFrame126] [] [] false);
                        split; [vm_compute; reflexivity|];
                        exists (mkMem [drop 4 maskedFrame126] [] [] false);
                        split; [vm_compute; reflexivity|];
                        exists (mkMem [drop 8 maskedFrame126] [] [] false);
                        split; [vm_compute; reflexivity|];
                        exists (mkMem [] [] [] false);
                        split; [vm_compute; reflexivity|reflexivity]))).
Defined.

(** The bytes that [Write] produces for 125 letters A are not decoded to
    these letters by [Read]: the first four are taken for the mask key. *)
Lemma unmasked_round_trip_counterexample :
  ~ (exists fuel r,
       Read fuel (receiving [getDataFrame 125 ++ replicate 125 0x41]) (make 125)
       = Some (Return r)
       /\ delivered r ++ leftover (self r) = replicate 125 0x41).
Proof.
  intros (fuel & r & Hr & Hp). destruct fuel as [|fuel]; [discriminate|].
  vm_compute in Hr. injection Hr as <-. vm_compute in Hp. discriminate.
Qed.

Lemma partial_read_reconstruction_witness :
  exists rs,
    readEach 1 (receiving [thousandFrame]) (replicate 10 (make 100))
    = Some (rs, mkConn (mkMem [] [] [] false) None)
    /\ length rs = 10%nat
    /\ Forall (fun r => count r = 100 /\ err r = None) rs
    /\ concat (delivered <$> rs) = thousand
    /\ (forall i r, rs !! i = Some r -> (i < 9)%nat ->
          buffer (self r) = Some (drop (S i * 100) thousand)
          /\ drop (S i * 100) thousand <> []).
Proof.
  apply (@partial_read_reconstruction memConn memTransport 0
           (mkMem [thousandFrame] [] [] false) (mkMem [] [] [] false)
           0x82 0xFE sampleKey thousand (replicate 10 (make 100))).
  - right. reflexivity.
  - reflexivity.
  - reflexivity.
  - reflexivity.
  - cbn [delivers].
    exists (mkMem [drop 2 thousandFrame] [] [] false).
    split; [vm_compute; reflexivity|].
    exists (mkMem [drop 4 thousandFrame] [] [] false).
    split; [vm_compute; reflexivity|].
    exists (mkMem [drop 8 thousandFrame] [] [] false).
    split; [vm_compute; reflexivity|].
    exists (mkMem [] [] [] false).
    split; [vm_compute; reflexivity|reflexivity].
  - reflexivity.
  - repeat constructor.
Defined.

(** C6, at a frame that arrives in two pieces. The binary frame of 1000
    payload bytes, cut after its first 508 bytes: the payload read is
    answered with the 500 payload bytes at hand and its count is
    dropped; ten calls with destinations of 100 bytes return 100 bytes
    each and no error, but what they hand out is the first half of the
    payload followed by the mask key repeated 125 times, and the second
    half of the payload stays on the transport, to be taken for the next
    header.  It is so on the in-memory transport and through a reader
    as [Hijack] returns it, with nothing read ahead.  The same frame in
    one piece is reconstructed in ten calls. *)
Theorem split_frame_not_reconstructed (fuel : nat) :
  let dsts := replicate 10 (make 100) in
  let pieces := [take 508 thousandFrame; drop 508 thousandFrame] in
  match readEach (S fuel) (receiving pieces) dsts with
  | Some (rs, c) =>
      count <$> rs = replicate 10 100
      /\ err <$> rs = replicate 10 None
      /\ concat (delivered <$> rs)
         = take 500 thousand ++ concat (replicate 125 sampleKey)
      /\ concat (delivered <$> rs) <> thousand
      /\ c = mkConn (mkMem [drop 508 thousandFrame] [] [] false) None
  | None => False
  end
  /\ match readEach (S fuel) (mkConn (bufio.hijacked pieces) None) dsts with
     | Some (rs, c) =>
         count <$> rs = replicate 10 100
         /\ err <$> rs = replicate 10 None
         /\ concat (delivered <$> rs)
            = take 500 thousand ++ concat (replicate 125 sampleKey)
         /\ concat (delivered <$> rs) <> thousand
         /\ buffer c = None /\ bufio.buffered (rw c) = []
         /\ bufio.conn (rw c) = [drop 508 thousandFrame]
     | None => False
     end
  /\ match readEach (S fuel) (receiving [thousandFrame]) dsts with
     | Some (rs, c) =>
         count <$> rs = replicate 10 100
         /\ err <$> rs = replicate 10 None
         /\ concat (delivered <$> rs) = thousand
         /\ c = mkConn (mkMem [] [] [] false) None
     | None => False
     end.
Proof.
  vm_compute.
  repeat match goal with
         | |- _ /\ _ => split
         | |- _ = _ => reflexivity
         | |- _ -> False => discriminate
         end.
Qed.

(** C2, at two frames that are not read in full. A binary frame of 5000
    payload bytes, received in one piece through the reader that [Hijack]
    returns: the payload read is answered with the 4088 bytes left in
    the buffer, [Read] returns 5000 bytes and no error, the last 912 of
    them the mask key repeated, and 912 bytes of the frame stay on the
    connection.  The frame "Hello" whose first byte arrives alone: the
    header read returns one byte, the base length is taken from the zero
    left in the header buffer, four bytes of the frame are consumed as
    mask key, and [Read] returns 0 bytes and no error, six bytes of the
    frame still on the transport.  The frame "Hello" in one segment is
    decoded to "Hello". *)
Theorem short_reads_misparse (fuel : nat) (p : list Z) :
  match Read (S fuel) (mkConn (bufio.hijacked [bufio.fiveThousandFrame]) None)
          (make 5000) with
  | Some (Return r) =>
      err r = None /\ count r = 5000
      /\ take 4088 (dst r) = take 4088 bufio.fiveThousand
      /\ drop 4088 (dst r) = unmask sampleKey (make 912)
      /\ bufio.conn (rw (self r)) = [drop 4096 bufio.fiveThousandFrame]
  | _ => False
  end
  /\ Read (S fuel) (receiving [[0x81]; tail helloFrame]) p
     = Some (Return (mkRead p 0 None
                       (mkConn (mkMem [[0x3d; 0x7f; 0x9f; 0x4d; 0x51; 0x58]] [] [] false)
                          None)))
  /\ Read (S fuel) (receiving [helloFrame]) (make 5)
     = Some (Return (mkRead helloText 5 None
                       (mkConn (mkMem [] [] [] false) None))).
Proof.
  split; [vm_compute; repeat split|split; [|reflexivity]].
  destruct p; reflexivity.
Qed.

(** An extended length with the top bit set makes [Read] panic at
    [make([]byte, payloadLength)]. *)
Lemma negative_length_panics (fuel : nat) (p : list Z) :
  Read (S fuel)
    (receiving [[0x82; 0xFF; 0x80; 0; 0; 0; 0; 0; 0; 0; 1; 2; 3; 4]]) p
  = Some (Panic "makeslice: len out of range").
Proof. reflexivity. Qed.

(** C8, at a masked pong followed by a text frame. After the two header
    bytes of the pong, the next header is taken from its mask key
    [0x37 0xfa]: [Read] fails with "unknown opcode", the rest of the pong
    and the whole text frame still on the transport.  The text frame
    alone is decoded to "Hello". *)
Theorem pong_body_not_consumed (fuel : nat) (p : list Z) :
  Read (S (S fuel)) (receiving [pongFrame ++ helloFrame]) p
  = Some (Return (mkRead p 0 (Some (errors_New "unknown opcode"))
                    (mkConn (mkMem [[0x21; 0x3d; 0x7f; 0x9f; 0x4d; 0x51; 0x58]
                                      ++ helloFrame] [] [] false) None)))
  /\ Read (S fuel) (receiving [helloFrame]) (make 5)
     = Some (Return (mkRead helloText 5 None
                       (mkConn (mkMem [] [] [] false) None))).
Proof. split; reflexivity. Qed.

End ConcreteFrames.

(** A ping or pong header is all that [Read] consumes of such a frame:
    the next header is read from the transport as it stands behind these
    two bytes. *)
Lemma Read_ping_pong {T : Type} `{!Transport T}
    (fuel : nat) (t t1 : T) (b0 b1 : Z) (p : list Z) :
  rwRead t 2 = ([b0; b1], None, t1) ->
  Z.land b0 0x0F = opCodePing \/ Z.land b0 0x0F = opCodePong ->
  Read (S fuel) (mkConn t None) p = Read fuel (mkConn t1 None) p.
Proof.
  intros Hr Hop. unfold Read. cbn [buffer rw readFrames].
  rewrite (readInto_full t t1 [b0; b1] 2 Hr eq_refl).
  cbn [lookup_total list_lookup_total].
  destruct Hop as [-> | ->]; reflexivity.
Qed.

(** ** The handshake *)

Section Handshake.
Context {T : Type}.

(** One case of the validation: each conjunct holds by the equations at
    hand, or its premises contradict them. *)
Ltac handshake_case :=
  repeat match goal with
         | |- _ /\ _ => split
         | |- NoDup _ => assumption
         | |- _ -> _ => intro
         end;
  try congruence; try reflexivity;
  try (exfalso;
       match goal with
       | H : http.wHijacked _ <> _ |- _ => apply H; reflexivity
       end).

(** C3. Handshake validation: [Upgrade] checks the Connection header,
    then the Upgrade header, then the version, then the key; the first
    check that fails decides the error, the four errors are pairwise
    different, and a failing [Upgrade] returns no connection and leaves
    the response writer as it was: no header set, no status written,
    [Hijack] not called. *)
Theorem Upgrade_validation (w : http.ResponseWriter T) (r : http.Request) :
  let h := http.Header r in
  (http.Get h "Connection" <> "Upgrade"%string ->
     Upgrade w r = (None, Some (errors_New "missing 'connection' header"), w))
  /\ (http.Get h "Connection" = "Upgrade"%string ->
      http.Get h "Upgrade" <> "websocket"%string ->
     Upgrade w r = (None, Some (errors_New "missing 'upgrade' header"), w))
  /\ (http.Get h "Connection" = "Upgrade"%string ->
      http.Get h "Upgrade" = "websocket"%string ->
      http.Get h "Sec-WebSocket-Version" <> "13"%string ->
     Upgrade w r = (None, Some (errors_New "invalid version"), w))
  /\ (http.Get h "Connection" = "Upgrade"%string ->
      http.Get h "Upgrade" = "websocket"%string ->
      http.Get h "Sec-WebSocket-Version" = "13"%string ->
      http.Get h "Sec-WebSocket-Key" = ""%string ->
     Upgrade w r
     = (None, Some (errors_New "missing 'sec-websocket-key' header"), w))
  /\ NoDup [errors_New "missing 'connection' header";
            errors_New "missing 'upgrade' header";
            errors_New "invalid version";
            errors_New "missing 'sec-websocket-key' header"]
  /\ (http.wHijacked (Upgrade w r).2 <> http.wHijacked w ->
      http.Get h "Connection" = "Upgrade"%string
      /\ http.Get h "Upgrade" = "websocket"%string
      /\ http.Get h "Sec-WebSocket-Version" = "13"%string
      /\ http.Get h "Sec-WebSocket-Key" <> ""%string).
Proof.
  cbv zeta.
  assert (NoDup [errors_New "missing 'connection' header";
                 errors_New "missing 'upgrade' header";
                 errors_New "invalid version";
                 errors_New "missing 'sec-websocket-key' header"]) as Hnd.
  { repeat (apply NoDup_cons; split;
              [rewrite ?elem_of_cons, elem_of_nil; intuition discriminate|]).
    apply NoDup_nil_2. }
  unfold Upgrade.
  destruct (String.eqb_spec (http.Get (http.Header r) "Connection") "Upgrade")
    as [Hc|Hc]; cbn [negb]; [|handshake_case].
  destruct (String.eqb_spec (http.Get (http.Header r) "Upgrade") "websocket")
    as [Hu|Hu]; cbn [negb]; [|handshake_case].
  destruct (String.eqb_spec (http.Get (http.Header r) "Sec-WebSocket-Version") "13")
    as [Hv|Hv]; cbn [negb]; [|handshake_case].
  destruct (String.eqb_spec (http.Get (http.Header r) "Sec-WebSocket-Key") "")
    as [Hk|Hk]; handshake_case.
Qed.

End Handshake.

Section ConcreteHandshake.

Lemma Upgrade_validation_witness :
  Upgrade freshWriter (request [])
  = (None, Some (errors_New "missing 'connection' header"), freshWriter)
  /\ Upgrade freshWriter
       (request [("Connection", "Upgrade"); ("Upgrade", "h2c")]%string)
     = (None, Some (errors_New "missing 'upgrade' header"), freshWriter)
  /\ Upgrade freshWriter
       (request [("Connection", "Upgrade"); ("Upgrade", "websocket");
                 ("Sec-WebSocket-Version", "8")]%string)
     = (None, Some (errors_New "invalid version"), freshWriter)
  /\ Upgrade freshWriter
       (request [("Connection", "Upgrade"); ("Upgrade", "websocket");
                 ("Sec-WebSocket-Version", "13")]%string)
     = (None, Some (errors_New "missing 'sec-websocket-key' header"),
        freshWriter).
Proof.
  split; [|split; [|split]].
  - apply (proj1 (Upgrade_validation freshWriter (request []))).
    vm_compute. discriminate.
  - apply (proj1 (proj2 (Upgrade_validation freshWriter
             (request [("Connection", "Upgrade"); ("Upgrade", "h2c")]%string))));
      vm_compute; [reflexivity | discriminate].
  - apply (proj1 (proj2 (proj2 (Upgrade_validation freshWriter
             (request [("Connection", "Upgrade"); ("Upgrade", "websocket");
                       ("Sec-WebSocket-Version", "8")]%string)))));
      vm_compute; [reflexivity | reflexivity | discriminate].
  - apply (proj1 (proj2 (proj2 (proj2 (Upgrade_validation freshWriter
             (request [("Connection", "Upgrade"); ("Upgrade", "websocket");
                       ("Sec-WebSocket-Version", "13")]%string))))));
      vm_compute; reflexivity.
Defined.

(** A valid request is accepted: the three response headers, status 101,
    the transport hijacked and a connection with a nil buffer. *)
Example Upgrade_accepts :
  Upgrade freshWriter (request goodHeaders)
  = (Some (mkConn (mkMem [] [] [] false) None), None,
     http.mkResponse
       (http.Set_ (http.Set_ (http.Set_ ∅ "Upgrade" "websocket")
                     "Connection" "Upgrade")
          "Sec-WebSocket-Accept" "s3pPLMBiTxaQ9kYGzzhZRbK+xOo=")
       (Some 101) (inr (mkMem [] [] [] false)) true).
Proof. vm_compute. reflexivity. Qed.

End ConcreteHandshake.

(** C4. The accept key: [hashKey] is the base64 encoding of the SHA-1
    digest of the key followed by the GUID, and the key of the RFC's
    example gives the accept key of the RFC's example. *)
Theorem hashKey_accept :
  (forall key : string,
     hashKey key
     = base64.EncodeToString
         (sha1.Sum (bytes_of_string
                      (key ++ "258EAFA5-E914-47DA-95CA-C5AB0DC85B11"))))
  /\ hashKey "dGhlIHNhbXBsZSBub25jZQ==" = "s3pPLMBiTxaQ9kYGzzhZRbK+xOo="%string.
Proof. split; [reflexivity | vm_compute; reflexivity]. Qed.

(** The standard-library models on the test vectors of FIPS 180 and
    RFC 4648. *)
Example sha1_abc :
  sha1.Sum (bytes_of_string "abc")
  = [0xa9; 0x99; 0x3e; 0x36; 0x47; 0x06; 0x81; 0x6a; 0xba; 0x3e;
     0x25; 0x71; 0x78; 0x50; 0xc2; 0x6c; 0x9c; 0xd0; 0xd8; 0x9d].
Proof. vm_compute. reflexivity. Qed.

Example sha1_empty :
  sha1.Sum []
  = [0xda; 0x39; 0xa3; 0xee; 0x5e; 0x6b; 0x4b; 0x0d; 0x32; 0x55;
     0xbf; 0xef; 0x95; 0x60; 0x18; 0x90; 0xaf; 0xd8; 0x07; 0x09].
Proof. vm_compute. reflexivity. Qed.

Example sha1_two_blocks :
  sha1.Sum (bytes_of_string
              "abcdbcdecdefdefgefghfghighijhijkijkljklmklmnlmnomnopnopq")
  = [0x84; 0x98; 0x3e; 0x44; 0x1c; 0x3b; 0xd2; 0x6e; 0xba; 0xae;
     0x4a; 0xa1; 0xf9; 0x51; 0x29; 0xe5; 0xe5; 0x46; 0x70; 0xf1].
Proof. vm_compute. reflexivity. Qed.

Example base64_vectors :
  base64.EncodeToString (bytes_of_string "") = ""%string
  /\ base64.EncodeToString (bytes_of_string "f") = "Zg=="%string
  /\ base64.EncodeToString (bytes_of_string "fo") = "Zm8="%string
  /\ base64.EncodeToString (bytes_of_string "foo") = "Zm9v"%string
  /\ base64.EncodeToString (bytes_of_string "foob") = "Zm9vYg=="%string
  /\ base64.EncodeToString (bytes_of_string "fooba") = "Zm9vYmE="%string
  /\ base64.EncodeToString (bytes_of_string "foobar") = "Zm9vYmFy"%string.
Proof. repeat split; vm_compute; reflexivity. Qed.

(** ** [Write] and termination on the in-memory transport *)

Section MemFacts.

(** [Write] puts the header of [getDataFrame] and then the payload, as it
    is, on the wire, and reports the length of the payload. *)
Lemma Write_sends (m : memConn) (b : option (list Z)) (p : list Z) :
  Write (mkConn m b) p
  = (len p, None,
     mkConn (mkMem (incoming m) []
               (outgoing m ++ (unflushed m ++ getDataFrame (len p)) ++ p)
               (closed m)) b).
Proof. reflexivity. Qed.

(** One turn of the loop of [Read] returns, or hands over to the next
    turn on the transport left by the header read. *)
Lemma readFrames_step {T : Type} `{!Transport T}
    (fuel : nat) (t : T) (p : list Z) :
  (exists o, readFrames (S fuel) t p = Some o)
  \/ ((rwRead t 2).1.2 = None
      /\ readFrames (S fuel) t p = readFrames fuel (rwRead t 2).2 p).
Proof.
  cbn [readFrames]. unfold readInto. change (length (make 2)) with 2%nat.
  destruct (rwRead t 2) as [[data e] t1]. cbn [fst snd].
  destruct e as [e|]; [left; eexists; reflexivity|].
  destruct (_ || _); [left; eexists; reflexivity|].
  destruct (_ || _); [right; split; reflexivity|].
  destruct (_ =? _); left; eexists; reflexivity.
Qed.

Lemma memRead_pending (m : memConn) :
  (memRead m 2).1.2 = None ->
  (pending (incoming (memRead m 2).2) < pending (incoming m))%nat.
Proof.
  unfold memRead. destruct (closed m); [discriminate|].
  destruct (incoming m) as [|seg rest]; [discriminate|].
  intros _. cbn [pending foldr]. fold (pending rest).
  destruct (Nat.leb_spec (length seg) 2); cbn [snd incoming pending foldr];
    fold (pending rest); [lia|].
  rewrite length_drop. lia.
Qed.

(** On the in-memory transport the loop of [Read] ends: the fuel
    [S (pending segs)] is enough, and so is any larger one. *)
Lemma readFrames_terminates (fuel : nat) (p : list Z) :
  forall (m : memConn), (pending (incoming m) < fuel)%nat ->
  exists o, readFrames fuel m p = Some o.
Proof.
  induction fuel as [|fuel IH]; intros m Hlt; [lia|].
  destruct (readFrames_step fuel m p) as [Hret|[Hok Hnext]]; [exact Hret|].
  rewrite Hnext. apply IH.
  pose proof (memRead_pending m Hok) as Hdec.
  change (rwRead m 2) with (memRead m 2). lia.
Qed.

Lemma Read_terminates (c : connImpl memConn) (p : list Z) :
  exists o, Read (S (pending (incoming (rw c)))) c p = Some o.
Proof.
  unfold Read. destruct (buffer c) as [buf|].
  - destruct (copy p buf). eexists. reflexivity.
  - apply readFrames_terminates. lia.
Qed.

End MemFacts.

(** * Further properties of the package *)

(** ** What [Read] returns, for every transport *)

Section ReadContract.
Context {T : Type} `{!Transport T} `{!TransportLaws T}.

Lemma framed_error (p : list Z) (e : option error) (c : connImpl T) :
  framed p (mkRead p 0 e c).
Proof.
  unfold framed. cbn [count dst]. pose proof (len_nonneg p).
  repeat split; [lia | lia].
Qed.

Lemma framed_copy (p src : list Z) (c : connImpl T) (e : option error) :
  framed p (mkRead (copy p src).1 (copy p src).2 e c).
Proof.
  unfold framed, copy, len. cbn [count dst fst snd].
  rewrite Nat2Z.id, length_app, length_take, length_drop.
  split; [lia|]. split; [lia|].
  rewrite drop_app_length'; [reflexivity|]. rewrite length_take. lia.
Qed.

Lemma readData_framed (t : T) (base : Z) (p : list Z) (r : ReadResult T) :
  readData t base p = Return r -> framed p r.
Proof.
  unfold readData.
  destruct (readLength t base) as [[n e1] t1].
  destruct e1 as [e1|]; [intros [= <-]; apply framed_error|].
  destruct (readInto t1 (make 4)) as [[[mask k2] e2] t2].
  destruct e2 as [e2|]; [intros [= <-]; apply framed_error|].
  destruct (Z.ltb_spec n 0) as [|Hn]; [discriminate|].
  destruct (n >? maxAlloc); [discriminate|]. cbn [orb].
  pose proof (readInto_length t2 (make n)) as Hlen.
  destruct (readInto t2 (make n)) as [[[payload k3] e3] t3]. simpl in Hlen.
  destruct e3 as [e3|]; [intros [= <-]; apply framed_error|].
  rewrite length_make in Hlen.
  assert (length (unmask mask payload) = Z.to_nat n) as Hlen'
    by (rewrite length_unmask; exact Hlen).
  destruct (Z.gtb_spec n (len p)) as [Hgt|Hle].
  - pose proof (framed_copy p (unmask mask payload)) as Hf.
    destruct (copy p (unmask mask payload)) as [p' k]. intros [= <-]. apply Hf.
  - intros [= <-]. unfold framed, copy, len in *. cbn [count dst fst snd].
    rewrite Nat2Z.id, Nat.min_r by lia.
    rewrite length_app, length_take, length_drop.
    split; [lia|]. split; [lia|].
    rewrite drop_app_length'; [reflexivity|]. rewrite length_take. lia.
Qed.

Lemma readFrames_framed (fuel : nat) (t : T) (p : list Z) (r : ReadResult T) :
  readFrames fuel t p = Some (Return r) -> framed p r.
Proof.
  revert t. induction fuel as [|fuel IH]; intros t; [discriminate|].
  cbn [readFrames].
  destruct (readInto t (make 2)) as [[[frame k] e] t1].
  destruct e as [e|]; [intros [= <-]; apply framed_error|].
  destruct (_ || _); [intros [= Hd]; exact (readData_framed _ _ _ _ Hd)|].
  destruct (_ || _); [apply IH|].
  destruct (_ =? _); intros [= <-]; apply framed_error.
Qed.

(** X1. The contract of a reader: whatever [Read] returns, the count is
    between 0 and [len(p)], the destination keeps its length, and the
    bytes of the destination behind the count are untouched. *)
Theorem Read_reader_contract
    (fuel : nat) (c : connImpl T) (p : list Z) (r : ReadResult T) :
  Read fuel c p = Some (Return r) ->
  0 <= count r <= len p
  /\ length (dst r) = length p
  /\ drop (Z.to_nat (count r)) (dst r) = drop (Z.to_nat (count r)) p.
Proof.
  destruct (buffer c) as [buf|] eqn:Hb.
  - rewrite (Read_leftover fuel c buf p Hb). intros [= <-].
    unfold serve. pose proof (framed_copy p buf) as Hf.
    destruct (copy p buf) as [p' n]. apply Hf.
  - rewrite (Read_decode fuel c p Hb). apply readFrames_framed.
Qed.

End ReadContract.

(** ** Where the errors of [Read] come from *)

Section ReadErrors.
Context {T : Type} `{!Transport T}.

Lemma readInto_error (t t' : T) (buf buf' : list Z) (n : Z) (e : error)
    (p : list Z) (x : option error) :
  readInto t buf = (buf', n, Some e, t') ->
  fromTransport e (mkRead p 0 x (mkConn t' None)).
Proof.
  unfold readInto. destruct (rwRead t (length buf)) as [[data e0] t0] eqn:Hr.
  intros [= _ _ -> ->]. exists t, (length buf). rewrite Hr. split; reflexivity.
Qed.

Lemma readData_errors (t : T) (base : Z) (p : list Z) (r : ReadResult T)
    (e : error) :
  readData t base p = Return r -> err r = Some e -> fromTransport e r.
Proof.
  unfold readData, readLength.
  destruct (base =? 0x7E).
  { destruct (readInto t (make 2)) as [[[b2 k1] e1] t1] eqn:H1.
    destruct e1 as [e1|].
    { intros [= <-] [= <-]. eapply readInto_error, H1. }
    destruct (readInto t1 (make 4)) as [[[mask k2] e2] t2] eqn:H2.
    destruct e2 as [e2|].
    { intros [= <-] [= <-]. eapply readInto_error, H2. }
    destruct (_ <? 0); [discriminate|].
    destruct (_ >? maxAlloc); [discriminate|]. cbn [orb].
    destruct (readInto t2 _) as [[[payload k3] e3] t3] eqn:H3.
    destruct e3 as [e3|].
    { intros [= <-] [= <-]. eapply readInto_error, H3. }
    destruct (_ >? _); destruct (copy _ _); intros [= <-]; discriminate. }
  destruct (base =? 0x7F).
  { destruct (readInto t (make 8)) as [[[b8 k1] e1] t1] eqn:H1.
    destruct e1 as [e1|].
    { intros [= <-] [= <-]. eapply readInto_error, H1. }
    destruct (readInto t1 (make 4)) as [[[mask k2] e2] t2] eqn:H2.
    destruct e2 as [e2|].
    { intros [= <-] [= <-]. eapply readInto_error, H2. }
    destruct (_ <? 0); [discriminate|].
    destruct (_ >? maxAlloc); [discriminate|]. cbn [orb].
    destruct (readInto t2 _) as [[[payload k3] e3] t3] eqn:H3.
    destruct e3 as [e3|].
    { intros [= <-] [= <-]. eapply readInto_error, H3. }
    destruct (_ >? _); destruct (copy _ _); intros [= <-]; discriminate. }
  destruct (readInto t (make 4)) as [[[mask k2] e2] t2] eqn:H2.
  destruct e2 as [e2|].
  { intros [= <-] [= <-]. eapply readInto_error, H2. }
  destruct (_ <? 0); [discriminate|].
  destruct (_ >? maxAlloc); [discriminate|]. cbn [orb].
  destruct (readInto t2 _) as [[[payload k3] e3] t3] eqn:H3.
  destruct e3 as [e3|].
  { intros [= <-] [= <-]. eapply readInto_error, H3. }
  destruct (_ >? _); destruct (copy _ _); intros [= <-]; discriminate.
Qed.

Lemma readFrames_errors (fuel : nat) (t : T) (p : list Z) (r : ReadResult T)
    (e : error) :
  readFrames fuel t p = Some (Return r) -> err r = Some e -> knownError e r.
Proof.
  revert t. induction fuel as [|fuel IH]; intros t; [discriminate|].
  cbn [readFrames].
  destruct (readInto t (make 2)) as [[[frame k] e0] t1] eqn:H0.
  destruct e0 as [e0|].
  { intros [= <-] [= <-]. right. right. eapply readInto_error, H0. }
  destruct (_ || _).
  { intros [= Hd] He. right. right. exact (readData_errors _ _ _ _ _ Hd He). }
  destruct (_ || _); [apply IH|].
  destruct (_ =? _); intros [= <-] [= <-]; [left|right; left]; reflexivity.
Qed.


(** X3. The header bits that [Read] does not look at: two headers with
    the same low seven bits in the second byte, and either the same low
    four bits in the first byte or a text or binary opcode each, are
    decoded alike.  So the final bit, the reserved bits and the mask bit
    change nothing, and text and binary frames are treated the same. *)
Theorem Read_ignores_flag_bits
    (fuel : nat) (t t' t1 : T) (b0 b1 b0' b1' : Z) (p : list Z) :
  rwRead t 2 = ([b0; b1], None, t1) ->
  rwRead t' 2 = ([b0'; b1'], None, t1) ->
  Z.land b1 0x7F = Z.land b1' 0x7F ->
  Z.land b0 0x0F = Z.land b0' 0x0F
  \/ ((Z.land b0 0x0F = opCodeText \/ Z.land b0 0x0F = opCodeBinary)
      /\ (Z.land b0' 0x0F = opCodeText \/ Z.land b0' 0x0F = opCodeBinary)) ->
  Read (S fuel) (mkConn t None) p = Read (S fuel) (mkConn t' None) p.
Proof.
  intros Hr Hr' Hlen Hop. unfold Read. cbn [buffer rw readFrames].
  rewrite (readInto_full t t1 [b0; b1] 2 Hr eq_refl).
  rewrite (readInto_full t' t1 [b0'; b1'] 2 Hr' eq_refl).
  cbn [lookup_total list_lookup_total]. rewrite Hlen.
  destruct Hop as [-> | [[-> | ->] [-> | ->]]]; reflexivity.
Qed.

End ReadErrors.

(** ** The width of the length field *)

Section Width.
Context {T : Type} `{!Transport T}.

Lemma value_16 (e0 e1 : Z) :
  is_byte e1 ->
  Z.lor (Z.shiftl e0 0x08) e1 = beValue [e0; e1].
Proof.
  intros H1. unfold is_byte in H1. cbn [beValue foldl].
  rewrite Z.shiftl_mul_pow2 by lia.
  rewrite (lor_add _ _ 8); [| lia | apply Z.mod_mul; lia | lia].
  change (2 ^ 8) with 256. lia.
Qed.

(** The goal is that a sum of shifted bytes is a multiple of [2 ^ k]. *)
Ltac multiple :=
  match goal with
  | |- ?x mod 2 ^ ?k = 0 =>
      replace x with (x / 2 ^ k * 2 ^ k);
      [apply Z.mod_mul; lia | Z.div_mod_to_equations; lia]
  end.

Lemma value_64 (e0 e1 e2 e3 e4 e5 e6 e7 : Z) :
  Forall is_byte [e0; e1; e2; e3; e4; e5; e6; e7] ->
  beValue [e0; e1; e2; e3; e4; e5; e6; e7] < 2 ^ 63 ->
  Z.lor (Z.lor (Z.lor (Z.lor (Z.lor (Z.lor (Z.lor
    (int_of (Z.shiftl e0 0x38)) (Z.shiftl e1 0x30)) (Z.shiftl e2 0x28))
    (Z.shiftl e3 0x20)) (Z.shiftl e4 0x18)) (Z.shiftl e5 0x10))
    (Z.shiftl e6 0x08)) e7
  = beValue [e0; e1; e2; e3; e4; e5; e6; e7].
Proof.
  intros Hb Hmax. cbn [beValue foldl] in *.
  repeat match goal with
         | H : Forall _ (_ :: _) |- _ => apply Forall_cons in H as [? H]
         end.
  unfold is_byte in *.
  rewrite !Z.shiftl_mul_pow2 by lia.
  assert (e0 < 128) as Htop by lia.
  unfold int_of. rewrite (Z.mod_small (_ + 2 ^ 63)) by lia.
  replace (e0 * 2 ^ 56 + 2 ^ 63 - 2 ^ 63) with (e0 * 2 ^ 56) by lia.
  rewrite (lor_add (e0 * 2 ^ 56) _ 56); [|lia|apply Z.mod_mul; lia|lia].
  rewrite (lor_add (_ + _) _ 48); [|lia|multiple|lia].
  rewrite (lor_add (_ + _ + _) _ 40); [|lia|multiple|lia].
  rewrite (lor_add (_ + _ + _ + _) _ 32); [|lia|multiple|lia].
  rewrite (lor_add (_ + _ + _ + _ + _) _ 24); [|lia|multiple|lia].
  rewrite (lor_add (_ + _ + _ + _ + _ + _) _ 16); [|lia|multiple|lia].
  rewrite (lor_add (_ + _ + _ + _ + _ + _ + _) _ 8); [|lia|multiple|lia].
  lia.
Qed.

Lemma value_64_negative (e0 e1 e2 e3 e4 e5 e6 e7 : Z) :
  Forall is_byte [e0; e1; e2; e3; e4; e5; e6; e7] -> 128 <= e0 ->
  Z.lor (Z.lor (Z.lor (Z.lor (Z.lor (Z.lor (Z.lor
    (int_of (Z.shiftl e0 0x38)) (Z.shiftl e1 0x30)) (Z.shiftl e2 0x28))
    (Z.shiftl e3 0x20)) (Z.shiftl e4 0x18)) (Z.shiftl e5 0x10))
    (Z.shiftl e6 0x08)) e7
  = beValue [e0; e1; e2; e3; e4; e5; e6; e7] - 2 ^ 64.
Proof.
  intros Hb Htop. cbn [beValue foldl] in *.
  repeat match goal with
         | H : Forall _ (_ :: _) |- _ => apply Forall_cons in H as [? H]
         end.
  unfold is_byte in *.
  rewrite !Z.shiftl_mul_pow2 by lia.
  unfold int_of.
  replace (e0 * 2 ^ 56 + 2 ^ 63) with ((e0 * 2 ^ 56 - 2 ^ 63) + 1 * 2 ^ 64)
    by lia.
  rewrite Z.mod_add by lia. rewrite (Z.mod_small (_ - 2 ^ 63)) by lia.
  replace (e0 * 2 ^ 56 - 2 ^ 63 - 2 ^ 63) with ((e0 - 256) * 2 ^ 56) by lia.
  rewrite (lor_add ((e0 - 256) * 2 ^ 56) _ 56); [|lia|apply Z.mod_mul; lia|lia].
  rewrite (lor_add (_ + _) _ 48); [|lia|multiple|lia].
  rewrite (lor_add (_ + _ + _) _ 40); [|lia|multiple|lia].
  rewrite (lor_add (_ + _ + _ + _) _ 32); [|lia|multiple|lia].
  rewrite (lor_add (_ + _ + _ + _ + _) _ 24); [|lia|multiple|lia].
  rewrite (lor_add (_ + _ + _ + _ + _ + _) _ 16); [|lia|multiple|lia].
  rewrite (lor_add (_ + _ + _ + _ + _ + _ + _) _ 8); [|lia|multiple|lia].
  lia.
Qed.

(** The length that [readLength] finds behind a header whose second byte
    is [b1], when the extension [ext] is delivered in full. *)
Lemma readLength_value (t t' : T) (b1 n : Z) (ext : list Z) :
  Forall is_byte ext -> n < 2 ^ 63 ->
  (ext = [] /\ Z.land b1 0x7F = n /\ n <= 125 /\ t = t')
  \/ (length ext = 2%nat /\ Z.land b1 0x7F = 0x7E /\ beValue ext = n
      /\ rwRead t 2 = (ext, None, t'))
  \/ (length ext = 8%nat /\ Z.land b1 0x7F = 0x7F /\ beValue ext = n
      /\ rwRead t 8 = (ext, None, t')) ->
  readLength t (Z.land b1 0x7F) = (n, None, t').
Proof.
  intros Hb Hmax [(-> & Hn & Hle & <-) | [(Hl & -> & Hv & Hr) | (Hl & -> & Hv & Hr)]].
  - rewrite Hn. apply readLength_base; lia.
  - destruct ext as [|e0 [|e1 [|? ?]]]; try discriminate.
    rewrite (readLength_16 t t' e0 e1 Hr), value_16, Hv; [reflexivity|].
    apply Forall_cons in Hb as [_ Hb]. apply Forall_cons in Hb as [Hb _]. exact Hb.
  - destruct ext as [|e0 [|e1 [|e2 [|e3 [|e4 [|e5 [|e6 [|e7 [|? ?]]]]]]]]];
      try discriminate.
    rewrite (readLength_64 t t' _ _ _ _ _ _ _ _ Hr), value_64, Hv;
      [reflexivity | exact Hb | lia].
Qed.


(** A data frame of any width that is delivered in full. *)
Lemma Read_frame (fuel : nat) (t t' : T) (b0 b1 : Z)
    (ext key body p : list Z) :
  Z.land b0 0x0F = opCodeText \/ Z.land b0 0x0F = opCodeBinary ->
  length key = 4%nat ->
  Forall is_byte ext -> len body <= maxAlloc ->
  (ext = [] /\ Z.land b1 0x7F = len body /\ len body <= 125)
  \/ (length ext = 2%nat /\ Z.land b1 0x7F = 0x7E /\ beValue ext = len body)
  \/ (length ext = 8%nat /\ Z.land b1 0x7F = 0x7F /\ beValue ext = len body) ->
  delivers t (frameReads ([b0; b1] ++ ext) key body) t' ->
  Read (S fuel) (mkConn t None) p
  = Some (Return (deliver t' p (unmask key body))).
Proof.
  intros Hop Hk Hb Hmax Hw Hd.
  assert (len body < 2 ^ 63) as Hint by (unfold maxAlloc in Hmax; lia).
  unfold frameReads in Hd. cbn [take drop app] in Hd.
  destruct Hw as [(-> & Hn & Hle) | [(Hl & H1 & Hv) | (Hl & H1 & Hv)]].
  - cbn [app delivers length] in Hd.
    destruct Hd as (t1 & Hh & t2 & Hkey & t3 & Hbody & <-).
    rewrite Hk in Hkey.
    refine (Read_data_frame fuel t t1 t1 t2 t3 b0 b1 (len body) key body p
              Hh Hop _ Hkey Hk Hbody eq_refl Hmax).
    apply (readLength_value t1 t1 b1 (len body) []);
      [exact Hb | exact Hint | left; auto].
  - destruct ext as [|e0 [|e1 [|? ?]]]; try discriminate.
    cbn [app delivers length] in Hd.
    destruct Hd as (t1 & Hh & t2 & Hext & t3 & Hkey & t4 & Hbody & <-).
    rewrite Hk in Hkey.
    refine (Read_data_frame fuel t t1 t2 t3 t4 b0 b1 (len body) key body p
              Hh Hop _ Hkey Hk Hbody eq_refl Hmax).
    apply (readLength_value t1 t2 b1 (len body) [e0; e1]);
      [exact Hb | exact Hint | right; left; auto].
  - destruct ext as [|e0 [|e1 [|e2 [|e3 [|e4 [|e5 [|e6 [|e7 [|? ?]]]]]]]]];
      try discriminate.
    cbn [app delivers length] in Hd.
    destruct Hd as (t1 & Hh & t2 & Hext & t3 & Hkey & t4 & Hbody & <-).
    rewrite Hk in Hkey.
    refine (Read_data_frame fuel t t1 t2 t3 t4 b0 b1 (len body) key body p
              Hh Hop _ Hkey Hk Hbody eq_refl Hmax).
    apply (readLength_value t1 t2 b1 (len body)
             [e0; e1; e2; e3; e4; e5; e6; e7]);
      [exact Hb | exact Hint | right; right; auto].
Qed.

(** X4. The width of the length field does not matter: a text or binary
    frame of at most [maxAlloc] payload bytes whose length is given in
    the second byte, or in a 2-byte, or in an 8-byte big-endian extension
    (minimal or not), and that is delivered in full with its 4-byte key,
    is decoded to the same unmasked body; what does not fit the
    destination becomes the leftover. *)
Theorem Read_any_width (fuel : nat) (t t' : T) (b0 b1 : Z)
    (ext key body p : list Z) :
  Z.land b0 0x0F = opCodeText \/ Z.land b0 0x0F = opCodeBinary ->
  length key = 4%nat ->
  Forall is_byte ext -> len body <= maxAlloc ->
  (ext = [] /\ Z.land b1 0x7F = len body /\ len body <= 125)
  \/ (length ext = 2%nat /\ Z.land b1 0x7F = 0x7E /\ beValue ext = len body)
  \/ (length ext = 8%nat /\ Z.land b1 0x7F = 0x7F /\ beValue ext = len body) ->
  delivers t (frameReads ([b0; b1] ++ ext) key body) t' ->
  exists r, Read (S fuel) (mkConn t None) p = Some (Return r)
    /\ err r = None
    /\ delivered r ++ leftover (self r) = unmask key body
    /\ count r = Z.min (len p) (len body)
    /\ rw (self r) = t'.
Proof.
  intros Hop Hk Hb Hmax Hw Hd. exists (deliver t' p (unmask key body)).
  split; [exact (Read_frame fuel t t' b0 b1 ext key body p Hop Hk Hb Hmax Hw Hd)|].
  destruct (deliver_spec t' p (unmask key body)) as (He & Hrw & Hc & Hsplit & _).
  repeat split; try assumption.
  rewrite Hc. unfold len. rewrite length_unmask. reflexivity.
Qed.

End Width.

(** ** A leftover buffer read through any destinations *)

Section Stream.
Context {T : Type} `{!Transport T}.

Lemma drain_any (fuel : nat) (t : T) (dsts : list (list Z)) :
  forall buf : list Z,
  Forall (fun p => p <> []) dsts ->
  (capacity dsts <= length buf)%nat ->
  buf <> [] ->
  exists rs c',
    readEach fuel (mkConn t (Some buf)) dsts = Some (rs, c')
    /\ Forall2 (fun r p => count r = len p /\ err r = None) rs dsts
    /\ concat (delivered <$> rs) = take (capacity dsts) buf
    /\ leftover c' = drop (capacity dsts) buf
    /\ rw c' = t
    /\ (buffer c' = None <-> capacity dsts = length buf).
Proof.
  induction dsts as [|p dsts IH]; intros buf Hne Hcap Hbuf.
  - exists [], (mkConn t (Some buf)). cbn [readEach capacity foldr].
    repeat split; try reflexivity; try constructor; try discriminate.
    intros Hz. destruct buf; [contradiction|discriminate].
  - apply Forall_cons in Hne as [Hp Hne].
    cbn [capacity foldr] in Hcap |- *. fold (capacity dsts) in Hcap |- *.
    cbn [readEach].
    rewrite (Read_leftover fuel (mkConn t (Some buf)) buf p eq_refl).
    destruct (Nat.eq_dec (length p) (length buf)) as [Heq|Hlt].
    + assert (dsts = []) as ->.
      { destruct dsts as [|q dsts]; [reflexivity|].
        apply Forall_cons in Hne as [Hq _]. cbn [capacity foldr] in Hcap.
        destruct q; [contradiction|]. simpl in Hcap. lia. }
      rewrite serve_last by exact Heq. cbn [self rw readEach capacity foldr].
      exists [mkRead buf (len p) None (mkConn t None)], (mkConn t None).
      rewrite Nat.add_0_r.
      split; [reflexivity|]. split; [repeat constructor|].
      split; [|split; [|split; [reflexivity|split; [intros _; exact Heq|reflexivity]]]].
      * unfold delivered, len. cbn [fmap list_fmap concat count dst].
        rewrite Nat2Z.id, app_nil_r. rewrite Heq. reflexivity.
      * unfold leftover. cbn [buffer default]. rewrite Heq, drop_all. reflexivity.
    + rewrite serve_partial by lia. cbn [self rw].
      assert (drop (length p) buf <> []) as Hrest.
      { intros Hnil. apply (f_equal length) in Hnil.
        rewrite length_drop in Hnil. simpl in Hnil. lia. }
      destruct (IH (drop (length p) buf) Hne) as
        (rs & c' & Hrs & Hall & Hcat & Hleft & Hrw & Hnil);
        [rewrite length_drop; lia | exact Hrest |].
      rewrite Hrs.
      exists (mkRead (take (length p) buf) (len p) None
                (mkConn t (Some (drop (length p) buf))) :: rs), c'.
      split; [reflexivity|].
      split; [constructor; [split; reflexivity | exact Hall]|].
      split; [|split; [|split; [exact Hrw|]]].
      * rewrite fmap_cons. cbn [concat]. rewrite Hcat.
        unfold delivered, len. cbn [count dst].
        rewrite Nat2Z.id, take_take, Nat.min_id. apply take_take_drop.
      * rewrite Hleft, drop_drop. reflexivity.
      * rewrite Hnil, length_drop. lia.
Qed.

(** X6. Byte-stream reading of a leftover: a leftover buffer read through
    non-empty destinations of any sizes, no larger in total than the
    buffer, is handed out in order without loss or repetition: each call
    fills its destination and returns no error, the chunks concatenated
    are a prefix of the buffer, the rest stays as leftover, the transport
    is not touched, and the buffer becomes nil exactly when all of it has
    been handed out. *)
Theorem leftover_any_destinations
    (fuel : nat) (c : connImpl T) (buf : list Z) (dsts : list (list Z)) :
  buffer c = Some buf -> buf <> [] ->
  Forall (fun p => p <> []) dsts ->
  (capacity dsts <= length buf)%nat ->
  exists rs c',
    readEach fuel c dsts = Some (rs, c')
    /\ Forall2 (fun r p => count r = len p /\ err r = None) rs dsts
    /\ concat (delivered <$> rs) = take (capacity dsts) buf
    /\ leftover c' = drop (capacity dsts) buf
    /\ rw c' = rw c
    /\ (buffer c' = None <-> capacity dsts = length buf).
Proof.
  intros Hb Hbuf Hne Hcap. destruct c as [t b]. cbn [buffer rw] in *. subst b.
  exact (drain_any fuel t dsts buf Hne Hcap Hbuf).
Qed.

End Stream.

(** ** [Write] *)

Section Writing.
Context {T : Type} `{!Transport T}.

Lemma Write_buffer (c : connImpl T) (p : list Z) :
  buffer (Write c p).2 = buffer c.
Proof.
  unfold Write. destruct (rwWrite (rw c) _) as [[n1 e1] t1].
  destruct e1; [reflexivity|]. destruct (rwWrite t1 p) as [[n2 e2] t2].
  destruct e2; [reflexivity|]. destruct (rwFlush t2). reflexivity.
Qed.


Lemma Write_accepted `{!WriterAccepts T} (c : connImpl T) (p : list Z) :
  (Write c p).1 = (len p, None)
  /\ sent (rw (Write c p).2) = sent (rw c) ++ sentFrame p
  /\ buffer (Write c p).2 = buffer c.
Proof.
  split; [|split; [|apply Write_buffer]]; unfold Write, sentFrame.
  - destruct (rwWrite_accepts (rw c) (getDataFrame (len p))) as [H1 _].
    destruct (rwWrite (rw c) _) as [[n1 e1] t1]. injection H1 as -> ->.
    destruct (rwWrite_accepts t1 p) as [H2 _].
    destruct (rwWrite t1 p) as [[n2 e2] t2]. injection H2 as -> ->.
    destruct (rwFlush_accepts t2) as [H3 _].
    destruct (rwFlush t2) as [e3 t3]. cbn [fst] in H3. subst e3. reflexivity.
  - destruct (rwWrite_accepts (rw c) (getDataFrame (len p))) as [H1 S1].
    destruct (rwWrite (rw c) _) as [[n1 e1] t1]. injection H1 as -> ->.
    destruct (rwWrite_accepts t1 p) as [H2 S2].
    destruct (rwWrite t1 p) as [[n2 e2] t2]. injection H2 as -> ->.
    destruct (rwFlush_accepts t2) as [H3 S3].
    destruct (rwFlush t2) as [e3 t3]. cbn [fst snd] in *. subst e3.
    cbn [rw]. rewrite S3, S2, S1, app_assoc. reflexivity.
Qed.

(** X8. Messages written one after the other go out as one frame each,
    in order: on a writer that accepts everything, every call returns the
    length of its message and no error, what was sent grows by the header
    of [getDataFrame] and the unmasked message of each call, and the
    leftover buffer is not touched. *)
Theorem Write_frames_in_order `{!WriterAccepts T}
    (c : connImpl T) (ps : list (list Z)) :
  (writeEach c ps).1 = (fun p => (len p, None)) <$> ps
  /\ sent (rw (writeEach c ps).2)
     = sent (rw c) ++ concat ((fun p => getDataFrame (len p) ++ p) <$> ps)
  /\ buffer (writeEach c ps).2 = buffer c.
Proof.
  revert c. induction ps as [|p ps IH]; intros c.
  - cbn. rewrite app_nil_r. split; [reflexivity | split; reflexivity].
  - cbn [writeEach].
    destruct (Write_accepted c p) as (Hr & Hs & Hb).
    destruct (Write c p) as [[n e] c1]. cbn [fst snd] in *.
    injection Hr as -> ->.
    destruct (IH c1) as (Hr' & Hs' & Hb').
    destruct (writeEach c1 ps) as [rs c2]. cbn [fst snd] in *.
    rewrite Hr', Hs', Hs, Hb', Hb. unfold sentFrame.
    rewrite !fmap_cons. cbn [concat]. rewrite !app_assoc.
    split; [reflexivity | split; reflexivity].
Qed.

(** X9. [Write] and [Close] keep the leftover buffer: a [Read] that
    follows either of them on a connection with a leftover buffer serves
    the same bytes, with the same count and no error, as it would have
    before, and does not touch the transport, closed or not. *)
Theorem leftover_survives_Write_and_Close
    (fuel : nat) (c : connImpl T) (buf p q : list Z) :
  buffer c = Some buf ->
  exists r r1 r2,
    Read fuel c q = Some (Return r)
    /\ Read fuel (Write c p).2 q = Some (Return r1)
    /\ Read fuel (Close c).2 q = Some (Return r2)
    /\ (dst r1, count r1, err r1, buffer (self r1))
       = (dst r, count r, None, buffer (self r))
    /\ (dst r2, count r2, err r2, buffer (self r2))
       = (dst r, count r, None, buffer (self r))
    /\ rw (self r1) = rw (Write c p).2
    /\ rw (self r2) = rw (Close c).2.
Proof.
  intros Hb.
  assert (buffer (Write c p).2 = Some buf) as Hw
    by (rewrite Write_buffer; exact Hb).
  assert (buffer (Close c).2 = Some buf) as Hc
    by (unfold Close; destruct (connClose (rw c)); exact Hb).
  exists (serve c buf q), (serve (Write c p).2 buf q), (serve (Close c).2 buf q).
  rewrite (Read_leftover fuel c buf q Hb).
  rewrite (Read_leftover fuel _ buf q Hw), (Read_leftover fuel _ buf q Hc).
  unfold serve. destruct (copy q buf) as [q' n].
  destruct (n =? len buf); cbn; repeat split; reflexivity.
Qed.

End Writing.

(** ** The header that [getDataFrame] builds *)

Section Header.

(** Quotient and remainder of [q] by 256, as [b] and two facts. *)
Ltac byte_digit q b Hq Hb :=
  assert (q = 256 * (q / 256) + q mod 256 /\ 0 <= q mod 256 < 256)
    as [Hq Hb]
    by (split; [apply Z.div_mod; lia | apply Z.mod_pos_bound; lia]);
  set (b := q mod 256) in *.

Lemma extension_16 (size : Z) :
  0 <= size <= 65535 ->
  beValue [byte_of (Z.shiftr size 0x08); byte_of (Z.land size 0xFF)] = size.
Proof.
  intros H. rewrite <- value_16, length_16; [reflexivity | lia |].
  unfold is_byte, byte_of. apply Z.mod_pos_bound. lia.
Qed.

Lemma extension_64 (size : Z) :
  0 <= size < 2 ^ 63 ->
  beValue [byte_of (Z.shiftr size 0x38); byte_of (Z.shiftr size 0x30);
           byte_of (Z.shiftr size 0x28); byte_of (Z.shiftr size 0x20);
           byte_of (Z.shiftr size 0x18); byte_of (Z.shiftr size 0x10);
           byte_of (Z.shiftr size 0x08); byte_of (Z.land size 0xFF)] = size.
Proof.
  intros H. cbn [beValue foldl]. unfold byte_of.
  change 0xFF with (Z.ones 8). rewrite Z.land_ones by lia.
  rewrite !Z.shiftr_div_pow2 by lia.
  change (2 ^ 8) with 256 in *. change (2 ^ 16) with (256 * 256).
  change (2 ^ 24) with (256 * (256 * 256)).
  change (2 ^ 32) with (256 * (256 * (256 * 256))).
  change (2 ^ 40) with (256 * (256 * (256 * (256 * 256)))).
  change (2 ^ 48) with (256 * (256 * (256 * (256 * (256 * 256))))).
  change (2 ^ 56) with (256 * (256 * (256 * (256 * (256 * (256 * 256)))))).
  rewrite <- !Z.div_div by lia.
  set (q1 := size / 256). set (q2 := q1 / 256). set (q3 := q2 / 256).
  set (q4 := q3 / 256). set (q5 := q4 / 256). set (q6 := q5 / 256).
  set (q7 := q6 / 256).
  byte_digit size b0 E0 B0. byte_digit q1 b1 E1 B1. byte_digit q2 b2 E2 B2.
  byte_digit q3 b3 E3 B3. byte_digit q4 b4 E4 B4. byte_digit q5 b5 E5 B5.
  byte_digit q6 b6 E6 B6.
  fold q1 in E0. fold q2 in E1. fold q3 in E2. fold q4 in E3.
  fold q5 in E4. fold q6 in E5. fold q7 in E6.
  assert (0 <= q7 < 128) as B7 by lia.
  rewrite (Z.mod_small q7 256) by lia.
  rewrite (Z.mod_small b0 256) by lia. lia.
Qed.

(** X10. The header of [getDataFrame], for every length of an [int]: the
    byte [0x81] (final text frame), then an indicator below 128, so that
    the mask bit is never set, then the extension; the shortest form that
    holds the length is chosen, and the extension read big-endian is the
    length.  All are bytes. *)
Theorem getDataFrame_shape (size : Z) :
  0 <= size < 2 ^ 63 ->
  exists ind ext,
    getDataFrame size = [0x81; ind] ++ ext
    /\ Forall is_byte (getDataFrame size)
    /\ 0 <= ind < 128
    /\ ((size <= 125 /\ ind = size /\ ext = [])
        \/ (125 < size <= 65535 /\ ind = 126
            /\ length ext = 2%nat /\ beValue ext = size)
        \/ (65535 < size /\ ind = 127
            /\ length ext = 8%nat /\ beValue ext = size)).
Proof.
  intros H. pose proof (getDataFrame_bytes size) as Hb. revert Hb.
  unfold getDataFrame.
  change (Z.lor 0x80 (Z.land (byte_of opCodeText) 0x0F)) with 0x81.
  destruct (Z.leb_spec size 125) as [H1|H1];
    [|destruct (Z.leb_spec size 65535) as [H2|H2]]; cbn [app]; intros Hb.
  - exists size, []. unfold byte_of in *. rewrite Z.mod_small in * by lia.
    split; [reflexivity|]. split; [exact Hb|]. split; [lia|].
    left. repeat split; lia.
  - eexists 126, _. split; [reflexivity|]. split; [exact Hb|]. split; [lia|].
    right. left. rewrite extension_16 by lia. repeat split; lia.
  - eexists 127, _. split; [reflexivity|]. split; [exact Hb|]. split; [lia|].
    right. right. rewrite extension_64 by lia. repeat split; lia.
Qed.

Lemma getDataFrame_size (size : Z) :
  0 <= size < 2 ^ 63 ->
  size = match getDataFrame size with
         | _ :: ind :: ext => if ind <? 126 then ind else beValue ext
         | _ => 0
         end.
Proof.
  intros H. unfold getDataFrame.
  change (Z.lor 0x80 (Z.land (byte_of opCodeText) 0x0F)) with 0x81.
  destruct (Z.leb_spec size 125) as [H1|H1];
    [|destruct (Z.leb_spec size 65535) as [H2|H2]]; cbn [app].
  - unfold byte_of. rewrite Z.mod_small by lia.
    destruct (Z.ltb_spec size 126); [reflexivity|lia].
  - change (126 <? 126) with false. cbv iota. rewrite extension_16; lia.
  - change (127 <? 126) with false. cbv iota. rewrite extension_64; lia.
Qed.

(** X11. Different lengths give different headers: [getDataFrame] is
    injective on the lengths of an [int]. *)
Theorem getDataFrame_injective (a b : Z) :
  0 <= a < 2 ^ 63 -> 0 <= b < 2 ^ 63 ->
  getDataFrame a = getDataFrame b -> a = b.
Proof.
  intros Ha Hb Heq.
  rewrite (getDataFrame_size a Ha), (getDataFrame_size b Hb), Heq.
  reflexivity.
Qed.

End Header.

(** ** The handshake, accepted *)

Section Accepting.
Context {T : Type}.

Lemma Get_Set_eq (h : gmap string (list string)) (k v : string) :
  http.Get (http.Set_ h k v) k = v.
Proof. unfold http.Get, http.Set_. rewrite lookup_insert_eq. reflexivity. Qed.

Lemma Get_Set_ne (h : gmap string (list string)) (k k' v : string) :
  http.CanonicalHeaderKey k <> http.CanonicalHeaderKey k' ->
  http.Get (http.Set_ h k v) k' = http.Get h k'.
Proof.
  intros Hne. unfold http.Get, http.Set_.
  rewrite lookup_insert_ne by exact Hne. reflexivity.
Qed.

Lemma Upgrade_valid (w : http.ResponseWriter T) (r : http.Request) :
  http.Get (http.Header r) "Connection" = "Upgrade"%string ->
  http.Get (http.Header r) "Upgrade" = "websocket"%string ->
  http.Get (http.Header r) "Sec-WebSocket-Version" = "13"%string ->
  http.Get (http.Header r) "Sec-WebSocket-Key" <> ""%string ->
  Upgrade w r
  = let w1 := switching w (http.Get (http.Header r) "Sec-WebSocket-Key") in
    let w2 := http.mkResponse (http.wHeader w1) (http.wStatus w1)
                (http.wConn w1) true in
    match http.wConn w with
    | inl e => (None, Some e, w2)
    | inr t => (Some (mkConn t None), None, w2)
    end.
Proof.
  intros Hc Hu Hv Hk. unfold Upgrade. rewrite Hc, Hu, Hv. cbn [String.eqb negb].
  rewrite ?String.eqb_refl. cbn [negb].
  destruct (String.eqb_spec (http.Get (http.Header r) "Sec-WebSocket-Key") "")
    as [|_]; [contradiction|].
  unfold switching, http.Hijack, http.WriteHeader, http.HeaderSet.
  cbn [http.wStatus http.wConn http.wHeader http.wHijacked].
  destruct (http.wStatus w); cbn [http.wConn]; destruct (http.wConn w);
    reflexivity.
Qed.

Lemma switching_facts (w : http.ResponseWriter T) (key : string) :
  http.wStatus w = None ->
  http.wStatus (switching w key) = Some 101
  /\ http.Get (http.wHeader (switching w key)) "Upgrade" = "websocket"%string
  /\ http.Get (http.wHeader (switching w key)) "Connection" = "Upgrade"%string
  /\ http.Get (http.wHeader (switching w key)) "Sec-WebSocket-Accept"
     = hashKey key
  /\ http.wConn (switching w key) = http.wConn w.
Proof.
  intros Hs. unfold switching, http.WriteHeader, http.HeaderSet.
  cbn [http.wStatus http.wHeader http.wConn]. rewrite Hs.
  cbn [http.wStatus http.wHeader http.wConn].
  repeat split.
  - rewrite !Get_Set_ne by (vm_compute; discriminate). apply Get_Set_eq.
  - rewrite Get_Set_ne by (vm_compute; discriminate). apply Get_Set_eq.
  - apply Get_Set_eq.
Qed.

(** X12. A valid handshake on a fresh response writer: [Upgrade] returns
    a connection on the hijacked transport with a nil leftover buffer and
    no error; status 101 has been written with the headers
    [Upgrade: websocket], [Connection: Upgrade] and
    [Sec-WebSocket-Accept] set to the hash of the request key, and
    [Hijack] has been called. *)
Theorem Upgrade_accepts_valid
    (w : http.ResponseWriter T) (r : http.Request) (t : T) :
  http.Get (http.Header r) "Connection" = "Upgrade"%string ->
  http.Get (http.Header r) "Upgrade" = "websocket"%string ->
  http.Get (http.Header r) "Sec-WebSocket-Version" = "13"%string ->
  http.Get (http.Header r) "Sec-WebSocket-Key" <> ""%string ->
  http.wStatus w = None ->
  http.wConn w = inr t ->
  exists w',
    Upgrade w r = (Some (mkConn t None), None, w')
    /\ http.wStatus w' = Some 101
    /\ http.Get (http.wHeader w') "Upgrade" = "websocket"%string
    /\ http.Get (http.wHeader w') "Connection" = "Upgrade"%string
    /\ http.Get (http.wHeader w') "Sec-WebSocket-Accept"
       = hashKey (http.Get (http.Header r) "Sec-WebSocket-Key")
    /\ http.wHijacked w' = true.
Proof.
  intros Hc Hu Hv Hk Hs Ht.
  rewrite (Upgrade_valid w r Hc Hu Hv Hk). cbv zeta. rewrite Ht.
  destruct (switching_facts w (http.Get (http.Header r) "Sec-WebSocket-Key") Hs)
    as (H1 & H2 & H3 & H4 & _).
  eexists. split; [reflexivity|]. cbn [http.wStatus http.wHeader http.wHijacked].
  repeat split; assumption.
Qed.

(** X13. A valid handshake whose [Hijack] fails, on a response writer
    with no status written yet: [Upgrade] returns no connection and the
    error of [Hijack] as it is, after the headers [Upgrade: websocket],
    [Connection: Upgrade] and [Sec-WebSocket-Accept], set to the hash of
    the request key, and status 101 have been written and [Hijack] has
    been called. *)
Theorem Upgrade_hijack_error
    (w : http.ResponseWriter T) (r : http.Request) (e : error) :
  http.Get (http.Header r) "Connection" = "Upgrade"%string ->
  http.Get (http.Header r) "Upgrade" = "websocket"%string ->
  http.Get (http.Header r) "Sec-WebSocket-Version" = "13"%string ->
  http.Get (http.Header r) "Sec-WebSocket-Key" <> ""%string ->
  http.wStatus w = None ->
  http.wConn w = inl e ->
  exists w',
    Upgrade w r = (None, Some e, w')
    /\ http.wStatus w' = Some 101
    /\ http.Get (http.wHeader w') "Upgrade" = "websocket"%string
    /\ http.Get (http.wHeader w') "Connection" = "Upgrade"%string
    /\ http.Get (http.wHeader w') "Sec-WebSocket-Accept"
       = hashKey (http.Get (http.Header r) "Sec-WebSocket-Key")
    /\ http.wHijacked w' = true.
Proof.
  intros Hc Hu Hv Hk Hs Ht.
  rewrite (Upgrade_valid w r Hc Hu Hv Hk). cbv zeta. rewrite Ht.
  destruct (switching_facts w (http.Get (http.Header r) "Sec-WebSocket-Key") Hs)
    as (H1 & H2 & H3 & H4 & _).
  eexists. split; [reflexivity|]. cbn [http.wStatus http.wHeader http.wHijacked].
  repeat split; assumption.
Qed.

Lemma Upgrade_cases (w : http.ResponseWriter T) (r : http.Request) :
  (exists e, (Upgrade w r).1 = (None, Some e))
  \/ (exists t, (Upgrade w r).1 = (Some (mkConn t None), None)).
Proof.
  unfold Upgrade.
  destruct (negb _); [left; eexists; reflexivity|].
  destruct (negb _); [left; eexists; reflexivity|].
  destruct (negb _); [left; eexists; reflexivity|].
  destruct (String.eqb _ _); [left; eexists; reflexivity|].
  unfold http.Hijack. cbn [http.wConn http.WriteHeader http.HeaderSet].
  match goal with
  | |- context [http.wConn ?w'] => destruct (http.wConn w') as [e|t] eqn:Hw
  end.
  - left. eexists. reflexivity.
  - right. eexists. reflexivity.
Qed.

(** X14. The two results of [Upgrade]: it returns either an error and no
    connection, or a connection with a nil leftover buffer and no error;
    never both, never neither. *)
Theorem Upgrade_conn_or_error (w : http.ResponseWriter T) (r : http.Request) :
  match (Upgrade w r).1 with
  | (None, Some _) => True
  | (Some c, None) => buffer c = None
  | _ => False
  end.
Proof.
  destruct (Upgrade_cases w r) as [[e ->] | [t ->]]; [exact I | reflexivity].
Qed.

End Accepting.

Lemma length_Sum (msg : list Z) : length (sha1.Sum msg) = 20%nat.
Proof. reflexivity. Qed.

(** X15. The accept key is always 28 characters long and ends with the
    padding character: the base64 form of a 20-byte digest. *)
Theorem hashKey_length (key : string) :
  String.length (hashKey key) = 28%nat
  /\ String.get 27 (hashKey key) = Some "="%char.
Proof.
  unfold hashKey.
  pose proof (length_Sum (bytes_of_string (key ++ magicWebsocketGUID))) as Hl.
  destruct (sha1.Sum _) as [|a0 l]; [discriminate|].
  do 19 (destruct l as [|? l]; [discriminate|]).
  destruct l; [|discriminate]. split; reflexivity.
Qed.

(** ** The echo endpoint *)

Section Endpoint.
Context {T : Type} `{!Transport T}.

(** The four failures of the validation of [Upgrade]. *)
Lemma Upgrade_rejects (w : http.ResponseWriter T) (r : http.Request) :
  let h := http.Header r in
  (http.Get h "Connection" <> "Upgrade"%string ->
     Upgrade w r = (None, Some (errors_New "missing 'connection' header"), w))
  /\ (http.Get h "Connection" = "Upgrade"%string ->
      http.Get h "Upgrade" <> "websocket"%string ->
     Upgrade w r = (None, Some (errors_New "missing 'upgrade' header"), w))
  /\ (http.Get h "Connection" = "Upgrade"%string ->
      http.Get h "Upgrade" = "websocket"%string ->
      http.Get h "Sec-WebSocket-Version" <> "13"%string ->
     Upgrade w r = (None, Some (errors_New "invalid version"), w))
  /\ (http.Get h "Connection" = "Upgrade"%string ->
      http.Get h "Upgrade" = "websocket"%string ->
      http.Get h "Sec-WebSocket-Version" = "13"%string ->
      http.Get h "Sec-WebSocket-Key" = ""%string ->
     Upgrade w r
     = (None, Some (errors_New "missing 'sec-websocket-key' header"), w)).
Proof.
  cbv zeta. unfold Upgrade.
  destruct (String.eqb_spec (http.Get (http.Header r) "Connection") "Upgrade")
    as [Hc|Hc]; cbn [negb];
    [|repeat split; intros; congruence].
  destruct (String.eqb_spec (http.Get (http.Header r) "Upgrade") "websocket")
    as [Hu|Hu]; cbn [negb];
    [|repeat split; intros; congruence].
  destruct (String.eqb_spec (http.Get (http.Header r) "Sec-WebSocket-Version")
              "13") as [Hv|Hv]; cbn [negb];
    [|repeat split; intros; congruence].
  destruct (String.eqb_spec (http.Get (http.Header r) "Sec-WebSocket-Key") "")
    as [Hk|Hk]; repeat split; intros; congruence.
Qed.

(** The answer of the handler to an [Upgrade] that fails with the
    message [msg] and leaves the response writer [w] without a status. *)
Lemma handler_answers_error
    (turns rfuel : nat) (w : http.ResponseWriter T) (r : http.Request)
    (addr msg : string) :
  Upgrade w r = (None, Some (errors_New msg), w) ->
  http.wStatus w = None ->
  exists x,
    main.handler turns rfuel w r addr = Some (Return x)
    /\ http.wStatus (main.response x) = Some 400
    /\ main.body x = bytes_of_string msg ++ [10]
    /\ main.logged x = [main.FailedToUpgrade (errors_New msg)]
    /\ main.conn x = None
    /\ http.wHijacked (main.response x) = http.wHijacked w.
Proof.
  intros Hu Hs. unfold main.handler. rewrite Hu.
  unfold main.httpError, http.WriteHeader, http.HeaderSet.
  cbn [http.wStatus]. rewrite Hs.
  eexists. split; [reflexivity|].
  split; [reflexivity|]. split; [reflexivity|]. split; [reflexivity|].
  split; reflexivity.
Qed.

(** X16. A request that fails the validation, on a response writer with
    no status written yet, is answered with status 400 and, as body, the
    message of the first check that fails followed by a newline: the
    Connection header is checked first, then the Upgrade header, then
    the version, then the key.  The failure is logged with that error,
    no connection is made and [Hijack] is not called.  No turn of the
    loop is needed. *)
Theorem handler_rejects
    (turns rfuel : nat) (w : http.ResponseWriter T) (r : http.Request)
    (addr : string) :
  http.wStatus w = None ->
  let h := http.Header r in
  let rejected (msg : string) :=
    exists x,
      main.handler turns rfuel w r addr = Some (Return x)
      /\ http.wStatus (main.response x) = Some 400
      /\ main.body x = bytes_of_string msg ++ [10]
      /\ main.logged x = [main.FailedToUpgrade (errors_New msg)]
      /\ main.conn x = None
      /\ http.wHijacked (main.response x) = http.wHijacked w in
  (http.Get h "Connection" <> "Upgrade"%string ->
     rejected "missing 'connection' header"%string)
  /\ (http.Get h "Connection" = "Upgrade"%string ->
      http.Get h "Upgrade" <> "websocket"%string ->
     rejected "missing 'upgrade' header"%string)
  /\ (http.Get h "Connection" = "Upgrade"%string ->
      http.Get h "Upgrade" = "websocket"%string ->
      http.Get h "Sec-WebSocket-Version" <> "13"%string ->
     rejected "invalid version"%string)
  /\ (http.Get h "Connection" = "Upgrade"%string ->
      http.Get h "Upgrade" = "websocket"%string ->
      http.Get h "Sec-WebSocket-Version" = "13"%string ->
      http.Get h "Sec-WebSocket-Key" = ""%string ->
     rejected "missing 'sec-websocket-key' header"%string).
Proof.
  intros Hs h rejected. subst rejected h.
  destruct (Upgrade_rejects w r) as (H1 & H2 & H3 & H4).
  split; [|split; [|split]]; intros.
  - apply handler_answers_error; [apply H1; assumption | exact Hs].
  - apply handler_answers_error; [apply H2; assumption | exact Hs].
  - apply handler_answers_error; [apply H3; assumption | exact Hs].
  - apply handler_answers_error; [apply H4; assumption | exact Hs].
Qed.

(** A panic of the loop of [Read] is the one of
    [make([]byte, payloadLength)], for a length taken from the transport
    that is negative or above [maxAlloc]. *)
Lemma readFrames_panic (fuel : nat) (t : T) (p : list Z) (m : string) :
  readFrames fuel t p = Some (Panic m) ->
  m = "makeslice: len out of range"%string /\ refusedLength (T:=T).
Proof.
  revert t. induction fuel as [|fuel IH]; intros t; [discriminate|].
  cbn [readFrames].
  destruct (readInto t (make 2)) as [[[frame k] e] t1] eqn:Hh.
  destruct e as [e|]; [discriminate|].
  destruct (_ || _) eqn:Hop.
  { apply orb_true_iff in Hop. rewrite !Z.eqb_eq in Hop.
    unfold readData.
    destruct (readLength t1 (Z.land (frame !!! 1%nat) 0x7F)) as [[n e1] t2]
      eqn:Hl.
    destruct e1; [discriminate|].
    destruct (readInto t2 (make 4)) as [[[mask k2] e2] t3].
    destruct e2; [discriminate|].
    assert (n < 0 \/ maxAlloc < n -> refusedLength (T:=T)) as Hbad.
    { intros Hn. exists t, t1, frame, k, n.
      split; [exact Hh|]. split; [exact Hop|]. rewrite Hl.
      split; [reflexivity | exact Hn]. }
    destruct (Z.ltb_spec n 0) as [Hneg|Hpos];
      [intros [= <-]; split; [reflexivity | apply Hbad; left; exact Hneg]|].
    destruct (Z.gtb_spec n maxAlloc) as [Hbig|Hfit];
      [intros [= <-]; split; [reflexivity | apply Hbad; right; exact Hbig]|].
    cbn [orb].
    destruct (readInto t3 (make n)) as [[[payload k3] e3] t4].
    destruct e3; [discriminate|].
    destruct (_ >? _); destruct (copy _ _); discriminate. }
  clear Hop. destruct (_ || _); [apply IH|].
  destruct (_ =? _); discriminate.
Qed.

Lemma Read_panic (fuel : nat) (c : connImpl T) (p : list Z) (m : string) :
  Read fuel c p = Some (Panic m) ->
  m = "makeslice: len out of range"%string /\ refusedLength (T:=T).
Proof.
  unfold Read. destruct (buffer c) as [buf|].
  - destruct (copy p buf). discriminate.
  - apply readFrames_panic.
Qed.

Lemma Read_framed `{!TransportLaws T}
    (fuel : nat) (c : connImpl T) (p : list Z) (r : ReadResult T) :
  Read fuel c p = Some (Return r) -> framed p r.
Proof.
  destruct (buffer c) as [buf|] eqn:Hb.
  - rewrite (Read_leftover fuel c buf p Hb). intros [= <-].
    unfold serve. pose proof (framed_copy (T:=T) p buf) as Hf.
    destruct (copy p buf) as [p' n]. apply Hf.
  - rewrite (Read_decode fuel c p Hb). apply readFrames_framed.
Qed.

Lemma echoLoop_panic `{!TransportLaws T}
    (turns rfuel : nat) (c : connImpl T) (log : list main.logEntry)
    (m : string) :
  main.echoLoop turns rfuel c log = Some (Panic m) ->
  m = "makeslice: len out of range"%string /\ refusedLength (T:=T).
Proof.
  revert c log. induction turns as [|turns IH]; intros c log; [discriminate|].
  cbn [main.echoLoop].
  destruct (Read rfuel c (make 512)) as [[r|m']|] eqn:Hr; [|intros [= <-]|discriminate].
  - destruct (err r); [discriminate|].
    destruct (Read_framed rfuel c (make 512) r Hr) as (Hc & Hl & _).
    unfold main.slice_to, len. rewrite Hl.
    destruct (Z.ltb_spec (count r) 0); [lia|].
    destruct (Z.gtb_spec (count r) (Z.of_nat (length (make 512))));
      [unfold len in Hc; lia|].
    cbn [orb]. destruct (Write (self r) _) as [[n e] c1]. apply IH.
  - exact (Read_panic rfuel c (make 512) m' Hr).
Qed.


End Endpoint.

(** ** The echo endpoint on the in-memory transport *)

Section Echo.

Lemma delivers_nothing (m : memConn) (reads : list (list Z)) :
  concat reads = [] -> delivers m reads m.
Proof.
  induction reads as [|bs reads IH]; [reflexivity|].
  cbn [concat]. intros Hnil. apply app_eq_nil in Hnil as [-> Hnil].
  cbn [delivers length]. exists m. split; [reflexivity | exact (IH Hnil)].
Qed.

(** A segment that holds the bytes of successive reads answers each of
    them in full. *)
Lemma mem_delivers (reads : list (list Z)) (segs : list (list Z))
    (u o : list Z) :
  concat reads <> [] ->
  delivers (mkMem (concat reads :: segs) u o false) reads (mkMem segs u o false).
Proof.
  induction reads as [|bs reads IH]; [intros Hne; contradiction|].
  cbn [concat delivers]. intros Hne.
  destruct bs as [|b bs].
  - exists (mkMem (concat reads :: segs) u o false). split; [reflexivity|].
    apply IH. exact Hne.
  - destruct (concat reads) as [|x rest] eqn:Hrest.
    + exists (mkMem segs u o false). split.
      * rewrite app_nil_r.
        cbn [rwRead memTransport memRead incoming length closed].
        rewrite Nat.leb_refl. reflexivity.
      * apply delivers_nothing. exact Hrest.
    + exists (mkMem ((x :: rest) :: segs) u o false). split.
      * cbn [rwRead memTransport]. unfold memRead. cbn [incoming unflushed outgoing closed].
        change (length (b :: bs)) with (S (length bs)).
        destruct (Nat.leb_spec (length ((b :: bs) ++ x :: rest)) (S (length bs)))
          as [Hle|_].
        { rewrite length_app in Hle. simpl in Hle. lia. }
        change (S (length bs)) with (length (b :: bs)).
        rewrite take_app_length, drop_app_length. reflexivity.
      * apply IH. discriminate.
Qed.

Lemma serve_fits {T : Type} `{!Transport T}
    (c : connImpl T) (buf p : list Z) :
  (length buf <= length p)%nat ->
  serve c buf p
  = mkRead (buf ++ drop (length buf) p) (len buf) None (mkConn (rw c) None).
Proof.
  intros Hle. unfold serve, copy, len.
  rewrite Nat.min_r by lia. rewrite firstn_all, Z.eqb_refl. reflexivity.
Qed.

Lemma deliver_fits {T : Type} `{!Transport T}
    (t : T) (p payload : list Z) :
  (length payload <= length p)%nat ->
  deliver t p payload
  = mkRead (payload ++ drop (length payload) p) (len payload) None
      (mkConn t None).
Proof.
  intros Hle. unfold deliver, copy, len.
  destruct (Z.gtb_spec (Z.of_nat (length payload)) (Z.of_nat (length p)));
    [lia|].
  rewrite Nat.min_r by lia. rewrite firstn_all. reflexivity.
Qed.

Lemma slice_to_prefix (data rest : list Z) :
  main.slice_to (data ++ rest) (len data) = Return data.
Proof.
  unfold main.slice_to, len. rewrite length_app.
  destruct (Z.ltb_spec (Z.of_nat (length data)) 0); [lia|].
  destruct (Z.gtb_spec (Z.of_nat (length data))
              (Z.of_nat (length data + length rest))); [lia|].
  cbn [orb]. rewrite Nat2Z.id, take_app_length. reflexivity.
Qed.

(** One turn of the loop on a connection with a leftover buffer. *)
Lemma echo_leftover_turn (turns rfuel : nat) (inc : list (list Z))
    (out : list Z) (cl : bool) (buf : list Z) (log : list main.logEntry) :
  buf <> [] ->
  main.echoLoop (S turns) rfuel (mkConn (mkMem inc [] out cl) (Some buf)) log
  = main.echoLoop turns rfuel
      (mkConn (mkMem inc [] (out ++ sentFrame (take 512 buf)) cl)
         (if (length buf <=? 512)%nat then None else Some (drop 512 buf)))
      (log ++ [main.ReadBytes (len (take 512 buf)); main.Printed (take 512 buf)]).
Proof.
  intros Hne. cbn [main.echoLoop].
  rewrite (Read_leftover rfuel (mkConn (mkMem inc [] out cl) (Some buf)) buf
             (make 512) eq_refl).
  assert (length (make 512) = 512%nat) as Hmk by reflexivity.
  destruct (Nat.leb_spec (length buf) 512) as [Hle|Hgt].
  - rewrite serve_fits by (rewrite Hmk; lia).
    cbn [err count dst self rw]. rewrite slice_to_prefix, Write_sends.
    rewrite take_ge by lia. cbn [incoming unflushed outgoing closed app].
    unfold sentFrame. rewrite <- !app_assoc. reflexivity.
  - rewrite serve_partial by (rewrite Hmk; lia).
    cbn [err count dst self rw]. rewrite Hmk.
    assert (len (make 512) = len (take 512 buf)) as ->
      by (unfold len; rewrite length_take, Hmk; lia).
    rewrite <- (app_nil_r (take 512 buf)) at 1.
    rewrite slice_to_prefix, Write_sends.
    cbn [incoming unflushed outgoing closed app].
    unfold sentFrame. rewrite <- !app_assoc. reflexivity.
Qed.

Lemma echo_leftover (n : nat) :
  forall (turns rfuel : nat) (inc : list (list Z)) (out : list Z) (cl : bool)
         (buf : list Z) (log : list main.logEntry),
  buf <> [] -> (length buf <= n)%nat ->
  main.echoLoop (length (main.pieces n buf) + turns) rfuel
    (mkConn (mkMem inc [] out cl) (Some buf)) log
  = main.echoLoop turns rfuel
      (mkConn (mkMem inc [] (out ++ main.echoWire (main.pieces n buf)) cl) None)
      (log ++ main.echoLog (main.pieces n buf)).
Proof.
  induction n as [|n IH]; intros turns rfuel inc out cl buf log Hne Hlen.
  - destruct buf; [contradiction|simpl in Hlen; lia].
  - cbn [main.pieces].
    destruct (Nat.leb_spec (length buf) 512) as [Hle|Hgt].
    + cbn [length Nat.add]. rewrite echo_leftover_turn by exact Hne.
      destruct (Nat.leb_spec (length buf) 512) as [_|?]; [|lia].
      rewrite take_ge by lia.
      unfold main.echoWire, main.echoLog, sentFrame.
      cbn [fmap list_fmap concat]. rewrite !app_nil_r. reflexivity.
    + cbn [length Nat.add]. rewrite echo_leftover_turn by exact Hne.
      destruct (Nat.leb_spec (length buf) 512) as [?|_]; [lia|].
      rewrite IH.
      * unfold main.echoWire, main.echoLog, sentFrame. rewrite !fmap_cons.
        cbn [concat].
        rewrite <- !app_assoc. reflexivity.
      * intros Hnil. apply (f_equal length) in Hnil.
        rewrite length_drop in Hnil. simpl in Hnil. lia.
      * rewrite length_drop. lia.
Qed.

(** The turn that finds the transport at its end. *)
Lemma echo_eof (turns rfuel : nat) (out : list Z)
    (log : list main.logEntry) :
  main.echoLoop (S turns) (S rfuel) (mkConn (mkMem [] [] out false) None) log
  = Some (Return (mkConn (mkMem [] [] out false) None,
                  log ++ [main.ClientDisconnected EOF])).
Proof. reflexivity. Qed.

Lemma concat_frameReads (b0 b1 : Z) (ext key body : list Z) :
  concat (frameReads ([b0; b1] ++ ext) key body)
  = [b0; b1] ++ ext ++ key ++ body.
Proof.
  unfold frameReads. destruct ext; simpl; rewrite ?app_nil_r; reflexivity.
Qed.

(** X18. The echo of one message, on the in-memory transport. After a
    valid handshake, when one masked text or binary frame arrives whole
    and nothing follows, the handler sends the payload back in frames of
    [getDataFrame], unmasked: in one frame if it has at most 512 bytes
    (an empty frame for an empty payload), else cut in pieces of 512
    bytes and a last piece, each a frame of its own.  It logs the
    connection, each piece and the end of the stream, closes the
    connection and leaves the status 101 in place. *)
Theorem handler_echoes
    (r : http.Request) (addr : string) (b0 b1 : Z)
    (ext key payload : list Z) (extra rfuel : nat) :
  http.Get (http.Header r) "Connection" = "Upgrade"%string ->
  http.Get (http.Header r) "Upgrade" = "websocket"%string ->
  http.Get (http.Header r) "Sec-WebSocket-Version" = "13"%string ->
  http.Get (http.Header r) "Sec-WebSocket-Key" <> ""%string ->
  Z.land b0 0x0F = opCodeText \/ Z.land b0 0x0F = opCodeBinary ->
  length key = 4%nat ->
  Forall is_byte ext -> len payload <= maxAlloc ->
  (ext = [] /\ Z.land b1 0x7F = len payload /\ len payload <= 125)
  \/ (length ext = 2%nat /\ Z.land b1 0x7F = 0x7E /\ beValue ext = len payload)
  \/ (length ext = 8%nat /\ Z.land b1 0x7F = 0x7F /\ beValue ext = len payload) ->
  let frame := [b0; b1] ++ ext ++ key ++ unmask key payload in
  let chunks := main.pieces (S (length payload)) payload in
  exists x,
    main.handler (S (length chunks) + extra) (S rfuel)
      (http.mkResponse ∅ None (inr (mkMem [frame] [] [] false)) false) r addr
    = Some (Return x)
    /\ main.conn x
       = Some (mkConn (mkMem [] [] (main.echoWire chunks) true) None)
    /\ main.logged x
       = [main.ClientConnected addr] ++ main.echoLog chunks
           ++ [main.ClientDisconnected EOF]
    /\ http.wStatus (main.response x) = Some 101
    /\ main.body x = [].
Proof.
  intros Hc Hu Hv Hk Hop Hkey Hext Hmax Hw frame chunks.
  assert (len (unmask key payload) = len payload) as Hlen
    by (unfold len; rewrite length_unmask; reflexivity).
  assert (forall p, Read (S rfuel) (mkConn (mkMem [frame] [] [] false) None) p
                    = Some (Return (deliver (mkMem [] [] [] false) p payload)))
    as Hread.
  { intros p.
    pose proof (Read_frame rfuel (mkMem [frame] [] [] false)
                  (mkMem [] [] [] false) b0 b1 ext key (unmask key payload) p)
      as Hf.
    rewrite unmask_unmask, Hlen in Hf. apply Hf; try assumption.
    subst frame. rewrite <- concat_frameReads. apply mem_delivers.
    rewrite concat_frameReads. discriminate. }
  unfold main.handler. rewrite (Upgrade_valid _ r Hc Hu Hv Hk). cbv zeta.
  cbn [http.wConn].
  assert (length (make 512) = 512%nat) as Hmk by reflexivity.
  subst chunks. cbn [main.pieces].
  destruct (Nat.leb_spec (length payload) 512) as [Hle|Hgt].
  - change (S (length [payload]) + extra)%nat with (S (S extra)).
    remember (S extra) as k eqn:Ek. cbn [main.echoLoop]. rewrite Hread.
    rewrite deliver_fits by (rewrite Hmk; lia).
    cbn [err count dst self rw]. rewrite slice_to_prefix, Write_sends.
    cbn [incoming unflushed outgoing closed app]. subst k. rewrite echo_eof.
    eexists. split; [reflexivity|].
    cbn [main.conn main.logged main.response main.body http.wStatus
         Close connClose memTransport memClose rw buffer incoming unflushed
         outgoing closed fst snd].
    unfold main.echoWire, main.echoLog, sentFrame.
    cbn [fmap list_fmap concat]. rewrite ?app_nil_r, <- ?app_assoc.
    repeat split.
  - set (rest := main.pieces (length payload) (drop 512 payload)).
    replace (S (length (take 512 payload :: rest)) + extra)%nat
      with (S (length rest + S extra)) by (cbn [length]; lia).
    remember (length rest + S extra)%nat as k eqn:Ek.
    cbn [main.echoLoop]. rewrite Hread.
    rewrite deliver_partial by (rewrite Hmk; lia).
    cbn [err count dst self rw]. rewrite Hmk.
    assert (len (make 512) = len (take 512 payload)) as ->
      by (unfold len; rewrite length_take, Hmk; lia).
    pose proof (slice_to_prefix (take 512 payload) []) as Hsl.
    rewrite app_nil_r in Hsl. rewrite Hsl, Write_sends.
    cbn [incoming unflushed outgoing closed app].
    subst k rest. rewrite echo_leftover; cycle 1.
    { intros Hnil. apply (f_equal length) in Hnil.
      rewrite length_drop in Hnil. simpl in Hnil. lia. }
    { rewrite length_drop. lia. }
    rewrite echo_eof.
    eexists. split; [reflexivity|].
    cbn [main.conn main.logged main.response main.body http.wStatus
         Close connClose memTransport memClose rw buffer incoming unflushed
         outgoing closed fst snd].
    unfold main.echoWire, main.echoLog, sentFrame. rewrite !fmap_cons.
    cbn [concat]. rewrite <- ?app_assoc.
    repeat split.
Qed.

End Echo.

(** ** Negative lengths and control frames *)

Section Control.
Context {T : Type} `{!Transport T}.

(** X19. A length that does not fit an [int]: a text or binary frame
    whose 8-byte extension has its top bit set announces, as an [int],
    the value of the extension less 2^64, a negative length; once the
    mask key has been read, [Read] panics at
    [make([]byte, payloadLength)], whatever the destination. *)
Theorem Read_negative_length (fuel : nat) (t t' : T) (b0 b1 : Z)
    (ext key p : list Z) :
  Z.land b0 0x0F = opCodeText \/ Z.land b0 0x0F = opCodeBinary ->
  Z.land b1 0x7F = 0x7F ->
  length ext = 8%nat -> Forall is_byte ext -> 2 ^ 63 <= beValue ext ->
  length key = 4%nat ->
  delivers t [[b0; b1]; ext; key] t' ->
  (exists t1, readLength t1 (Z.land b1 0x7F)
              = (beValue ext - 2 ^ 64, None, (rwRead t1 8).2)
              /\ rwRead t 2 = ([b0; b1], None, t1))
  /\ Read (S fuel) (mkConn t None) p
     = Some (Panic "makeslice: len out of range").
Proof.
  intros Hop H1 Hl Hb Htop Hk (t1 & Hh & t2 & Hext & t3 & Hkey & <-).
  rewrite Hl in Hext.
  destruct ext as [|e0 [|e1 [|e2 [|e3 [|e4 [|e5 [|e6 [|e7 [|? ?]]]]]]]]];
    try discriminate.
  assert (128 <= e0) as He0.
  { cbn [beValue foldl] in Htop.
    repeat match goal with
           | H : Forall _ (_ :: _) |- _ => apply Forall_cons in H as [? H]
           end.
    unfold is_byte in *. lia. }
  assert (readLength t1 (Z.land b1 0x7F)
          = (beValue [e0; e1; e2; e3; e4; e5; e6; e7] - 2 ^ 64, None, t2))
    as Hlen.
  { rewrite H1, (readLength_64 t1 t2 _ _ _ _ _ _ _ _ Hext).
    rewrite (value_64_negative _ _ _ _ _ _ _ _ Hb He0). reflexivity. }
  split.
  { exists t1. rewrite Hext. split; [exact Hlen | exact Hh]. }
  unfold Read. cbn [buffer rw].
  rewrite (readFrames_data fuel t t1 b0 b1 p Hh Hop).
  unfold readData. rewrite Hlen.
  rewrite (readInto_full t2 t3 key 4 Hkey); [|unfold len; rewrite Hk; reflexivity].
  assert (beValue [e0; e1; e2; e3; e4; e5; e6; e7] < 2 ^ 64) as Hlt.
  { cbn [beValue foldl].
    repeat match goal with
           | H : Forall _ (_ :: _) |- _ => apply Forall_cons in H as [? H]
           end.
    unfold is_byte in *. lia. }
  destruct (Z.ltb_spec (beValue [e0; e1; e2; e3; e4; e5; e6; e7] - 2 ^ 64) 0);
    [reflexivity | lia].
Qed.

(** X20. Ping and pong are passed over and never answered: after any
    number of headers with opcode 9 or 10, each read in full, [Read]
    goes on as a [Read] on the transport behind these headers would, one
    turn of its loop spent on each, and nothing has been handed to the
    writer.  Two bytes are all that is taken of each such frame. *)
Theorem Read_skips_control `{!TransportLaws T}
    (fuel : nat) (hs : list (list Z)) (p : list Z) (t t' : T) :
  Forall (fun h => exists b0 b1, h = [b0; b1]
            /\ (Z.land b0 0x0F = opCodePing \/ Z.land b0 0x0F = opCodePong))
         hs ->
  delivers t hs t' ->
  Read (length hs + fuel) (mkConn t None) p = Read fuel (mkConn t' None) p
  /\ sent t' = sent t.
Proof.
  intros Hhs. revert t. induction Hhs as [|h hs (b0 & b1 & -> & Hop) _ IH];
    intros t Hd.
  - cbn [delivers] in Hd. subst t'. split; reflexivity.
  - cbn [delivers length] in Hd. destruct Hd as (t1 & Hr & Hd).
    destruct (IH t1 Hd) as [IHr IHs]. split.
    + cbn [length Nat.add].
      rewrite (Read_ping_pong (length hs + fuel) t t1 b0 b1 p Hr Hop).
      exact IHr.
    + rewrite IHs. pose proof (rwRead_sent t 2) as Hs. rewrite Hr in Hs.
      exact Hs.
Qed.

(** More fuel does not change what the loop of [Read] returns. *)
Lemma readFrames_more_fuel (fuel : nat) (t : T) (p : list Z)
    (o : outcome (ReadResult T)) :
  readFrames fuel t p = Some o ->
  forall k, readFrames (fuel + k) t p = Some o.
Proof.
  revert t. induction fuel as [|fuel IH]; intros t; [discriminate|].
  intros Hr k. cbn [Nat.add]. revert Hr. cbn [readFrames].
  destruct (readInto t (make 2)) as [[[frame n] e] t1].
  destruct e as [e|]; [exact id|].
  destruct (_ || _); [exact id|].
  destruct (_ || _); [intros Hr; exact (IH t1 Hr k)|].
  destruct (_ =? _); exact id.
Qed.

End Control.

(** ** The end of the handler *)

Section Ending.
Context {T : Type} `{!Transport T}.

(** The loop of the handler returns only through its [break]. *)
Lemma echoLoop_ends (turns rfuel : nat) :
  forall (c c' : connImpl T) (log log' : list main.logEntry),
  main.echoLoop turns rfuel c log = Some (Return (c', log')) ->
  exists e c0 p mid,
    log' = log ++ mid ++ [main.ClientDisconnected e]
    /\ (exists r, Read rfuel c0 p = Some (Return r)
                  /\ err r = Some e /\ self r = c').
Proof.
  induction turns as [|turns IH]; intros c c' log log'; [discriminate|].
  cbn [main.echoLoop].
  destruct (Read rfuel c (make 512)) as [[r|m]|] eqn:Hr; [|discriminate..].
  destruct (err r) as [e|] eqn:He.
  - intros [= <- <-]. exists e, c, (make 512), []. split; [reflexivity|].
    exists r. split; [exact Hr|]. split; [exact He | reflexivity].
  - destruct (main.slice_to (dst r) (count r)) as [data|m]; [|discriminate].
    destruct (Write (self r) data) as [[n e] c1]. intros Hl.
    destruct (IH _ _ _ _ Hl) as (e' & c0 & p & mid & -> & Hlast).
    exists e', c0, p, ([main.ReadBytes (count r); main.Printed data] ++ mid).
    split; [|exact Hlast]. rewrite <- !app_assoc. reflexivity.
Qed.


(** The slice [buffer[:n]] of a result that keeps the contract of a
    reader. *)
Lemma slice_to_framed (p : list Z) (r : ReadResult T) :
  framed p r ->
  main.slice_to (dst r) (count r) = Return (take (Z.to_nat (count r)) (dst r)).
Proof.
  intros (Hc & Hl & _). unfold main.slice_to, len. rewrite Hl.
  destruct (Z.ltb_spec (count r) 0); [lia|].
  destruct (Z.gtb_spec (count r) (Z.of_nat (length p)));
    [unfold len in Hc; lia | reflexivity].
Qed.

End Ending.

(** ** Termination on the in-memory transport *)

Section Returning.

Lemma memRead_le (m : memConn) (k : nat) :
  (pending (incoming (memRead m k).2) <= pending (incoming m))%nat.
Proof.
  unfold memRead. destruct k as [|k]; [simpl; lia|].
  destruct (closed m); [simpl; lia|].
  destruct (incoming m) as [|seg rest] eqn:Hi; [simpl; rewrite Hi; simpl; lia|].
  cbn [pending foldr]. fold (pending rest).
  destruct (Nat.leb_spec (length seg) (S k)); cbn [snd incoming pending foldr];
    fold (pending rest); [lia|].
  rewrite length_drop. lia.
Qed.

Lemma readInto_le (m : memConn) (buf : list Z) :
  (pending (incoming (readInto m buf).2) <= pending (incoming m))%nat.
Proof.
  unfold readInto. change (rwRead m (length buf)) with (memRead m (length buf)).
  pose proof (memRead_le m (length buf)) as Hle.
  destruct (memRead m (length buf)) as [[data e] m']. exact Hle.
Qed.

Lemma readLength_le (m : memConn) (n : Z) :
  (pending (incoming (readLength m n).2) <= pending (incoming m))%nat.
Proof.
  unfold readLength.
  destruct (n =? 0x7E).
  { pose proof (readInto_le m (make 2)) as Hle.
    destruct (readInto m (make 2)) as [[[payload k] e] m'].
    destruct e; exact Hle. }
  destruct (n =? 0x7F); [|simpl; lia].
  pose proof (readInto_le m (make 8)) as Hle.
  destruct (readInto m (make 8)) as [[[payload k] e] m'].
  destruct e; exact Hle.
Qed.

Lemma readData_le (m : memConn) (n : Z) (p : list Z) (r : ReadResult memConn) :
  readData m n p = Return r ->
  (pending (incoming (rw (self r))) <= pending (incoming m))%nat.
Proof.
  unfold readData.
  pose proof (readLength_le m n) as H1.
  destruct (readLength m n) as [[n' e1] m1]. cbn [snd] in H1.
  destruct e1; [intros [= <-]; exact H1|].
  pose proof (readInto_le m1 (make 4)) as H2.
  destruct (readInto m1 (make 4)) as [[[mask k2] e2] m2]. cbn [snd] in H2.
  destruct e2; [intros [= <-]; cbn [self rw]; lia|].
  destruct ((n' <? 0) || (n' >? maxAlloc)); [discriminate|].
  pose proof (readInto_le m2 (make n')) as H3.
  destruct (readInto m2 (make n')) as [[[payload k3] e3] m3]. cbn [snd] in H3.
  destruct e3; [intros [= <-]; cbn [self rw]; lia|].
  destruct (_ >? _); destruct (copy _ _); intros [= <-]; cbn [self rw]; lia.
Qed.

(** A decoding that returns data has taken something from the incoming
    segments. *)
Lemma readFrames_lt (fuel : nat) (p : list Z) :
  forall (m : memConn) (r : ReadResult memConn),
  readFrames fuel m p = Some (Return r) -> err r = None ->
  (pending (incoming (rw (self r))) < pending (incoming m))%nat.
Proof.
  induction fuel as [|fuel IH]; intros m r; [discriminate|].
  cbn [readFrames]. unfold readInto. change (length (make 2)) with 2%nat.
  change (rwRead m 2) with (memRead m 2).
  pose proof (memRead_pending m) as Hlt.
  destruct (memRead m 2) as [[data e] m1]. cbn [fst snd] in Hlt.
  destruct e as [e|]; [intros [= <-]; discriminate|].
  specialize (Hlt eq_refl).
  destruct (_ || _).
  { intros [= Hd] _. pose proof (readData_le _ _ _ _ Hd). lia. }
  destruct (_ || _).
  { intros Hr He. pose proof (IH m1 r Hr He). lia. }
  destruct (_ =? _); intros [= <-]; discriminate.
Qed.

Lemma Write_keeps (c : connImpl memConn) (p : list Z) :
  incoming (rw (Write c p).2) = incoming (rw c)
  /\ buffer (Write c p).2 = buffer c.
Proof. destruct c as [m b]. rewrite Write_sends. split; reflexivity. Qed.

(** The loop of the handler ends: each turn shortens the leftover buffer
    or takes something from the incoming segments, or is the last. *)
Lemma echoLoop_returns (rfuel : nat) :
  forall (n k : nat) (c : connImpl memConn) (log : list main.logEntry),
  (pending (incoming (rw c)) <= n)%nat ->
  (from_option (fun b => S (length b)) 0%nat (buffer c) <= k)%nat ->
  (pending (incoming (rw c)) < rfuel)%nat ->
  exists turns o, main.echoLoop turns rfuel c log = Some o.
Proof.
  induction n as [n IHn] using lt_wf_ind.
  induction k as [k IHk] using lt_wf_ind.
  intros c log Hn Hk Hf.
  assert (length (make 512) = 512%nat) as Hmk by reflexivity.
  assert (forall r, Read rfuel c (make 512) = Some (Return r) -> err r = None ->
          (pending (incoming (rw (self r))) < pending (incoming (rw c))
           \/ (pending (incoming (rw (self r))) = pending (incoming (rw c))
               /\ from_option (fun b => S (length b)) 0 (buffer (self r))
                  < from_option (fun b => S (length b)) 0 (buffer c)))%nat)
    as Hstep.
  { intros r Hr He. destruct c as [m [buf|]].
    - right.
      rewrite (Read_leftover rfuel (mkConn m (Some buf)) buf (make 512) eq_refl)
        in Hr.
      injection Hr as <-.
      destruct (Nat.leb_spec (length buf) 512) as [Hle|Hgt].
      + rewrite serve_fits by (rewrite Hmk; lia). cbn. lia.
      + rewrite serve_partial by (rewrite Hmk; lia). cbn [self rw buffer from_option].
        rewrite length_drop, Hmk. split; [reflexivity | lia].
    - left. unfold Read in Hr. cbn [buffer rw] in *.
      exact (readFrames_lt rfuel (make 512) m r Hr He). }
  assert (exists o, Read rfuel c (make 512) = Some o) as [o Ho].
  { unfold Read. destruct (buffer c) as [buf|].
    - destruct (copy _ buf). eexists. reflexivity.
    - apply readFrames_terminates. exact Hf. }
  destruct o as [r|msg].
  - destruct (err r) as [e|] eqn:He.
    + exists 1%nat. eexists. cbn [main.echoLoop]. rewrite Ho, He. reflexivity.
    + pose proof (Read_framed rfuel c (make 512) r Ho) as Hfr.
      pose proof (slice_to_framed (make 512) r Hfr) as Hsl.
      destruct (Write_keeps (self r) (take (Z.to_nat (count r)) (dst r)))
        as [Hinc Hbuf].
      assert (exists turns o1,
                main.echoLoop turns rfuel
                  (Write (self r) (take (Z.to_nat (count r)) (dst r))).2
                  ((log ++ [main.ReadBytes (count r)])
                     ++ [main.Printed (take (Z.to_nat (count r)) (dst r))])
                = Some o1) as (turns & o1 & Hrec).
      { destruct (Hstep r Ho He) as [Hlt | [Heq Hlt]].
        - apply (IHn (pending (incoming (rw (self r)))) ltac:(lia)
                   (from_option (fun b => S (length b)) 0%nat (buffer (self r))));
            rewrite ?Hinc, ?Hbuf; lia.
        - apply (IHk (from_option (fun b => S (length b)) 0%nat (buffer (self r)))
                   ltac:(lia));
            rewrite ?Hinc, ?Hbuf; lia. }
      exists (S turns), o1. cbn [main.echoLoop]. rewrite Ho, He, Hsl.
      destruct (Write (self r) _) as [[n0 e0] c1]. exact Hrec.
  - exists 1%nat. eexists. cbn [main.echoLoop]. rewrite Ho. reflexivity.
Qed.

(** X22. On the in-memory transport the handler returns or panics: the
    loop of the handler and the loop of each [Read] end, whatever bytes
    arrive and however they are cut in segments. *)
Theorem handler_returns (w : http.ResponseWriter memConn) (r : http.Request)
    (addr : string) :
  exists turns rfuel o, main.handler turns rfuel w r addr = Some o.
Proof.
  unfold main.handler.
  destruct (Upgrade w r) as [[conn e] w'].
  destruct e as [e|].
  { destruct (main.httpError _ _ _ _). exists 0%nat, 0%nat. eexists. reflexivity. }
  destruct conn as [c|]; [|exists 0%nat, 0%nat; eexists; reflexivity].
  destruct (echoLoop_returns (S (pending (incoming (rw c))))
              (pending (incoming (rw c)))
              (from_option (fun b => S (length b)) 0%nat (buffer c))
              c [main.ClientConnected addr]) as (turns & o & Ho); try lia.
  exists turns, (S (pending (incoming (rw c)))). rewrite Ho.
  destruct o as [[c1 log]|m]; [|eexists; reflexivity].
  destruct (Close c1). eexists. reflexivity.
Qed.

End Returning.

Section Termination.

(** X23. On the in-memory transport [Read] returns: its loop takes at
    most one turn for each pending read of the incoming segments and one
    more, and further turns allowed change nothing of the result. *)
Theorem Read_returns (c : connImpl memConn) (p : list Z) :
  exists o, forall k,
    Read (S (pending (incoming (rw c))) + k) c p = Some o.
Proof.
  unfold Read. destruct (buffer c) as [buf|].
  - destruct (copy p buf). eexists. intros k. reflexivity.
  - destruct (readFrames_terminates (S (pending (incoming (rw c)))) p (rw c))
      as [o Ho]; [lia|].
    exists o. intros k. exact (readFrames_more_fuel _ _ _ _ Ho k).
Qed.

End Termination.

(** ** Frames that the buffer of [bufio.Reader] holds whole *)

Section Buffered.

(** Reads answered from the buffer of a reader that holds their bytes
    and has no error pending. *)
Lemma buffered_delivers (reads : list (list Z)) :
  forall (b : bufio.ReadWriter) (rest : list Z),
  bufio.rerr b = None ->
  bufio.buffered b = concat reads ++ rest ->
  delivers b reads (bufio.reader b rest None (bufio.conn b)).
Proof.
  induction reads as [|bs reads IH]; intros b rest He Hbuf.
  - cbn [delivers]. destruct b. cbn in *. subst. reflexivity.
  - cbn [delivers concat] in *. destruct bs as [|z bs].
    + cbn [app length] in *. cbn [rwRead bufio.rwTransport]. unfold bufio.Read.
      destruct (bufio.buffered b) as [|y buf] eqn:Hb.
      * eexists. split; [rewrite He; reflexivity|].
        apply (IH (bufio.reader b [] None (bufio.conn b)) rest);
          [reflexivity | exact Hbuf].
      * eexists. split; [reflexivity|].
        apply IH; [exact He | rewrite Hb; exact Hbuf].
    + exists (bufio.reader b (concat reads ++ rest) None (bufio.conn b)).
      split; [|apply (IH (bufio.reader b (concat reads ++ rest) None
                            (bufio.conn b)) rest); reflexivity].
      cbn [rwRead bufio.rwTransport length]. unfold bufio.Read.
      rewrite <- app_assoc in Hbuf. rewrite Hbuf, He. cbn [app].
      change (z :: bs ++ concat reads ++ rest)
        with ((z :: bs) ++ concat reads ++ rest).
      change (S (length bs)) with (length (z :: bs)).
      rewrite take_app_length, drop_app_length. reflexivity.
Qed.

(** A piece that fits the buffer is taken into it by the first read of
    an empty reader and answers the reads that follow. *)
Lemma filled_delivers (first : list Z) (reads : list (list Z)) :
  forall (b : bufio.ReadWriter) (rest : list Z) (segs : list (list Z)),
  bufio.rerr b = None -> bufio.buffered b = [] -> bufio.closed b = false ->
  bufio.conn b = (first ++ concat reads ++ rest) :: segs ->
  first <> [] -> (length first < bufio.size b)%nat ->
  (length (first ++ concat reads ++ rest) <= bufio.size b)%nat ->
  delivers b (first :: reads) (bufio.reader b rest None segs).
Proof.
  intros b rest segs He Hbuf Hcl Hconn Hne Hlt Hle. cbn [delivers].
  exists (bufio.reader b (concat reads ++ rest) None segs).
  split; [|apply (buffered_delivers reads
                    (bufio.reader b (concat reads ++ rest) None segs) rest);
           reflexivity].
  cbn [rwRead bufio.rwTransport]. unfold bufio.Read.
  rewrite Hbuf, He, Hcl, Hconn.
  destruct first as [|z first]; [contradiction|].
  cbn [length] in *.
  destruct (Nat.leb_spec (bufio.size b) (S (length first))); [lia|].
  unfold bufio.connRead.
  destruct (Nat.leb_spec (length ((z :: first) ++ concat reads ++ rest))
              (bufio.size b)); [|lia].
  cbn [app].
  change (z :: first ++ concat reads ++ rest)
    with ((z :: first) ++ concat reads ++ rest).
  change (S (length first)) with (length (z :: first)).
  rewrite take_app_length, drop_app_length. reflexivity.
Qed.

(** X24. A masked text or binary frame that the buffer of the reader
    holds whole is decoded to its unmasked body.  That is so for a
    reader with no error pending that already holds the frame, followed
    or not by further bytes; and for an empty reader on an open
    connection whose next piece starts with the whole frame and fits the
    buffer: the first read takes the piece into the buffer.  Every read
    of the frame is then answered in full, and what follows the frame
    stays in the buffer.  It is not so for a reader that holds a part of
    the frame only, as [Hijack] may return it: with the first byte of
    "Hello" read ahead, [Read] returns 0 bytes and no error, and six
    bytes of the frame are left to be taken for the next header. *)
Theorem Read_buffered_frame (fuel : nat) (b : bufio.ReadWriter) (b0 b1 : Z)
    (ext key body rest p : list Z) (segs : list (list Z)) :
  Z.land b0 0x0F = opCodeText \/ Z.land b0 0x0F = opCodeBinary ->
  length key = 4%nat ->
  Forall is_byte ext -> len body <= maxAlloc ->
  (ext = [] /\ Z.land b1 0x7F = len body /\ len body <= 125)
  \/ (length ext = 2%nat /\ Z.land b1 0x7F = 0x7E /\ beValue ext = len body)
  \/ (length ext = 8%nat /\ Z.land b1 0x7F = 0x7F /\ beValue ext = len body) ->
  bufio.rerr b = None ->
  let frame := [b0; b1] ++ ext ++ key ++ body in
  (bufio.buffered b = frame ++ rest ->
     Read (S fuel) (mkConn b None) p
     = Some (Return (deliver (bufio.reader b rest None (bufio.conn b)) p
                       (unmask key body))))
  /\ (bufio.buffered b = [] -> bufio.closed b = false ->
      bufio.conn b = (frame ++ rest) :: segs ->
      (2 < bufio.size b)%nat -> (length (frame ++ rest) <= bufio.size b)%nat ->
      Read (S fuel) (mkConn b None) p
      = Some (Return (deliver (bufio.reader b rest None segs) p
                        (unmask key body))))
  /\ Read (S fuel)
       (mkConn (bufio.mkRW [0x81] bufio.defaultBufSize None [tail helloFrame]
                  [] [] false None) None) p
     = Some (Return (mkRead p 0 None
                       (mkConn (bufio.mkRW [0x3d; 0x7f; 0x9f; 0x4d; 0x51; 0x58]
                                  bufio.defaultBufSize None [] [] [] false None)
                          None))).
Proof.
  intros Hop Hk Hb Hmax Hw He frame.
  assert (frameReads ([b0; b1] ++ ext) key body
          = [b0; b1] :: (match ext with [] => [] | _ => [ext] end
                           ++ [key; body])) as Hf
    by (unfold frameReads; destruct ext; reflexivity).
  assert (concat (match ext with [] => [] | _ => [ext] end ++ [key; body])
          = ext ++ key ++ body) as Hc
    by (destruct ext; simpl; rewrite ?app_nil_r; reflexivity).
  split; [|split].
  - intros Hbuf.
    apply (Read_frame fuel _ _ b0 b1 ext key body p); try assumption.
    apply buffered_delivers; [exact He|].
    rewrite concat_frameReads. exact Hbuf.
  - intros Hbuf Hcl Hconn Hsz Hle.
    apply (Read_frame fuel _ _ b0 b1 ext key body p); try assumption.
    rewrite Hf.
    apply filled_delivers; try assumption; rewrite ?Hc.
    + exact Hconn.
    + discriminate.
    + exact Hle.
  - vm_compute. destruct p; reflexivity.
Qed.

End Buffered.

(** ** The writers of the transports *)

#[global] Instance memAccepts : WriterAccepts memConn.
Proof.
  split.
  - intros t bs. split; [reflexivity|].
    cbn [sent rwWrite memTransport]. unfold memSent, memWrite.
    cbn [snd outgoing unflushed]. rewrite app_assoc. reflexivity.
  - intros t. split; [reflexivity|].
    cbn [sent rwFlush memTransport]. unfold memSent, memFlush.
    cbn [snd outgoing unflushed]. rewrite app_nil_r. reflexivity.
Qed.

(** A writer that accepts everything keeps the contract of a writer. *)
Lemma accepts_contract {T : Type} `{!Transport T} `{!WriterAccepts T} :
  WriterContract T.
Proof.
  split. intros t bs. destruct (rwWrite_accepts t bs) as [Hw _].
  rewrite Hw. cbn [fst snd]. pose proof (len_nonneg bs). split; lia.
Qed.

#[global] Instance memWriter : WriterContract memConn.
Proof. exact accepts_contract. Qed.

#[global] Instance rwWriter : WriterContract bufio.ReadWriter.
Proof.
  split. intros t bs. cbn [rwWrite bufio.rwTransport]. unfold bufio.Write.
  pose proof (len_nonneg bs).
  destruct (bufio.werr t); cbn [fst snd];
    (split; [lia | intros ?; try lia; discriminate]).
Qed.

#[global] Instance pipeWriter : WriterContract faulty.pipe.
Proof.
  split. intros t bs. cbn [rwWrite faulty.pipeTransport].
  unfold faulty.pipeWrite, len.
  destruct (Nat.leb_spec (length bs) (faulty.room t)); cbn [fst snd];
    (split; [lia|intros ?; try lia; discriminate]).
Qed.

#[global] Instance pipeLaws : TransportLaws faulty.pipe.
Proof. split; intros t k; [simpl; lia | reflexivity]. Qed.

(** ** The properties at sample inputs *)

Lemma Read_reader_contract_witness :
  let r := mkRead [72; 101] 2 None helloPartial in
  0 <= count r <= len (make 2)
  /\ length (dst r) = length (make 2)
  /\ drop (Z.to_nat (count r)) (dst r) = drop (Z.to_nat (count r)) (make 2).
Proof.
  exact (@Read_reader_contract memConn memTransport memLaws 1
           (receiving [helloFrame]) (make 2)
           (mkRead [72; 101] 2 None helloPartial) ltac:(reflexivity)).
Defined.


Lemma Read_ignores_flag_bits_witness :
  Read 1 (receiving [helloFrame]) (make 5)
  = Read 1 (receiving [[0x02; 0x05] ++ drop 2 helloFrame]) (make 5).
Proof.
  apply (@Read_ignores_flag_bits memConn memTransport 0
           (mkMem [helloFrame] [] [] false)
           (mkMem [[0x02; 0x05] ++ drop 2 helloFrame] [] [] false)
           (mkMem [drop 2 helloFrame] [] [] false) 0x81 0x85 0x02 0x05 (make 5)).
  - reflexivity.
  - reflexivity.
  - reflexivity.
  - right. split; [left; reflexivity | right; reflexivity].
Defined.

Lemma Read_any_width_witness :
  exists r,
    Read 1 (receiving [[0x81; 0xFF; 0; 0; 0; 0; 0; 0; 0; 5] ++ drop 2 helloFrame])
      (make 2)
    = Some (Return r)
    /\ err r = None
    /\ delivered r ++ leftover (self r) = unmask sampleKey (drop 6 helloFrame)
    /\ count r = Z.min (len (make 2)) (len (drop 6 helloFrame))
    /\ rw (self r) = mkMem [] [] [] false.
Proof.
  apply (@Read_any_width memConn memTransport 0
           (mkMem [[0x81; 0xFF; 0; 0; 0; 0; 0; 0; 0; 5] ++ drop 2 helloFrame]
              [] [] false)
           (mkMem [] [] [] false) 0x81 0xFF [0; 0; 0; 0; 0; 0; 0; 5] sampleKey
           (drop 6 helloFrame) (make 2)).
  - left. reflexivity.
  - reflexivity.
  - repeat constructor; unfold is_byte; lia.
  - vm_compute. discriminate.
  - right. right. split; [reflexivity|]. split; reflexivity.
  - cbn [delivers].
    eexists. split; [vm_compute; reflexivity|].
    eexists. split; [vm_compute; reflexivity|].
    eexists. split; [vm_compute; reflexivity|].
    eexists. split; [vm_compute; reflexivity|reflexivity].
Defined.


Lemma leftover_any_destinations_witness :
  exists rs c',
    readEach 0 helloPartial [make 2; make 1] = Some (rs, c')
    /\ Forall2 (fun r p => count r = len p /\ err r = None) rs [make 2; make 1]
    /\ concat (delivered <$> rs) = take (capacity [make 2; make 1]) [108; 108; 111]
    /\ leftover c' = drop (capacity [make 2; make 1]) [108; 108; 111]
    /\ rw c' = rw helloPartial
    /\ (buffer c' = None
        <-> capacity [make 2; make 1] = length [108; 108; 111]).
Proof.
  apply (@leftover_any_destinations memConn memTransport 0 helloPartial
           [108; 108; 111] [make 2; make 1]).
  - reflexivity.
  - discriminate.
  - repeat constructor; discriminate.
  - simpl. lia.
Defined.


Lemma Write_frames_in_order_witness :
  let ps := [[1; 2]; []; [3]] in
  (writeEach (receiving []) ps).1 = (fun p => (len p, None)) <$> ps
  /\ sent (rw (writeEach (receiving []) ps).2)
     = sent (rw (receiving []))
         ++ concat ((fun p => getDataFrame (len p) ++ p) <$> ps)
  /\ buffer (writeEach (receiving []) ps).2 = buffer (receiving []).
Proof.
  exact (@Write_frames_in_order memConn memTransport memAccepts
           (receiving []) [[1; 2]; []; [3]]).
Defined.

Lemma leftover_survives_Write_and_Close_witness :
  exists r r1 r2,
    Read 0 helloPartial (make 2) = Some (Return r)
    /\ Read 0 (Write helloPartial [1]).2 (make 2) = Some (Return r1)
    /\ Read 0 (Close helloPartial).2 (make 2) = Some (Return r2)
    /\ (dst r1, count r1, err r1, buffer (self r1))
       = (dst r, count r, None, buffer (self r))
    /\ (dst r2, count r2, err r2, buffer (self r2))
       = (dst r, count r, None, buffer (self r))
    /\ rw (self r1) = rw (Write helloPartial [1]).2
    /\ rw (self r2) = rw (Close helloPartial).2.
Proof.
  apply (@leftover_survives_Write_and_Close memConn memTransport 0 helloPartial
           [108; 108; 111] [1] (make 2)).
  reflexivity.
Defined.

Lemma getDataFrame_shape_witness :
  exists ind ext,
    getDataFrame 70000 = [0x81; ind] ++ ext
    /\ Forall is_byte (getDataFrame 70000)
    /\ 0 <= ind < 128
    /\ ((70000 <= 125 /\ ind = 70000 /\ ext = [])
        \/ (125 < 70000 <= 65535 /\ ind = 126
            /\ length ext = 2%nat /\ beValue ext = 70000)
        \/ (65535 < 70000 /\ ind = 127
            /\ length ext = 8%nat /\ beValue ext = 70000)).
Proof. apply (getDataFrame_shape 70000). lia. Defined.

Lemma getDataFrame_injective_witness : 65535 + 1 = 65536.
Proof.
  apply (getDataFrame_injective (65535 + 1) 65536); [lia | lia | reflexivity].
Defined.

Lemma Upgrade_accepts_valid_witness :
  exists w',
    Upgrade freshWriter (request goodHeaders)
    = (Some (mkConn (mkMem [] [] [] false) None), None, w')
    /\ http.wStatus w' = Some 101
    /\ http.Get (http.wHeader w') "Upgrade" = "websocket"%string
    /\ http.Get (http.wHeader w') "Connection" = "Upgrade"%string
    /\ http.Get (http.wHeader w') "Sec-WebSocket-Accept"
       = hashKey (http.Get (http.Header (request goodHeaders)) "Sec-WebSocket-Key")
    /\ http.wHijacked w' = true.
Proof.
  apply (@Upgrade_accepts_valid memConn freshWriter (request goodHeaders)
           (mkMem [] [] [] false)).
  - vm_compute. reflexivity.
  - vm_compute. reflexivity.
  - vm_compute. reflexivity.
  - vm_compute. discriminate.
  - reflexivity.
  - reflexivity.
Defined.

Lemma Upgrade_hijack_error_witness :
  let w := http.mkResponse (T:=memConn) ∅ None
             (inl (errors_New "feature not supported")) false in
  exists w',
    Upgrade w (request goodHeaders)
    = (None, Some (errors_New "feature not supported"), w')
    /\ http.wStatus w' = Some 101
    /\ http.Get (http.wHeader w') "Upgrade" = "websocket"%string
    /\ http.Get (http.wHeader w') "Connection" = "Upgrade"%string
    /\ http.Get (http.wHeader w') "Sec-WebSocket-Accept"
       = hashKey (http.Get (http.Header (request goodHeaders)) "Sec-WebSocket-Key")
    /\ http.wHijacked w' = true.
Proof.
  apply (@Upgrade_hijack_error memConn
           (http.mkResponse ∅ None (inl (errors_New "feature not supported")) false)
           (request goodHeaders) (errors_New "feature not supported")).
  - vm_compute. reflexivity.
  - vm_compute. reflexivity.
  - vm_compute. reflexivity.
  - vm_compute. discriminate.
  - reflexivity.
  - reflexivity.
Defined.

Lemma handler_rejects_witness :
  let r := request [("Connection", "Upgrade"); ("Upgrade", "websocket")]%string in
  exists x,
    main.handler 0 0 freshWriter r "10.0.0.1:4000" = Some (Return x)
    /\ http.wStatus (main.response x) = Some 400
    /\ main.body x = bytes_of_string "invalid version" ++ [10]
    /\ main.logged x = [main.FailedToUpgrade (errors_New "invalid version")]
    /\ main.conn x = None
    /\ http.wHijacked (main.response x) = http.wHijacked freshWriter.
Proof.
  apply (proj1 (proj2 (proj2
           (@handler_rejects memConn memTransport 0 0 freshWriter
              (request [("Connection", "Upgrade"); ("Upgrade", "websocket")]%string)
              "10.0.0.1:4000" ltac:(reflexivity))))).
  - vm_compute. reflexivity.
  - vm_compute. reflexivity.
  - vm_compute. discriminate.
Defined.


Lemma handler_echoes_witness :
  main.pieces (S (length thousand)) thousand
  = [take 512 thousand; drop 512 thousand]
  /\ let frame :=
       [0x82; 0xFE] ++ [0x03; 0xE8] ++ sampleKey ++ unmask sampleKey thousand in
     let chunks := main.pieces (S (length thousand)) thousand in
     exists x,
       main.handler (S (length chunks) + 0) 1
         (http.mkResponse ∅ None (inr (mkMem [frame] [] [] false)) false)
         (request goodHeaders) "10.0.0.1:4000"
       = Some (Return x)
       /\ main.conn x
          = Some (mkConn (mkMem [] [] (main.echoWire chunks) true) None)
       /\ main.logged x
          = [main.ClientConnected "10.0.0.1:4000"] ++ main.echoLog chunks
              ++ [main.ClientDisconnected EOF]
       /\ http.wStatus (main.response x) = Some 101
       /\ main.body x = [].
Proof.
  split; [vm_compute; reflexivity|].
  apply (handler_echoes (request goodHeaders) "10.0.0.1:4000" 0x82 0xFE
           [0x03; 0xE8] sampleKey thousand 0 0).
  - vm_compute. reflexivity.
  - vm_compute. reflexivity.
  - vm_compute. reflexivity.
  - vm_compute. discriminate.
  - right. reflexivity.
  - reflexivity.
  - repeat constructor; unfold is_byte; lia.
  - vm_compute. discriminate.
  - right. left. split; [reflexivity|]. split; reflexivity.
Defined.

Lemma Read_negative_length_witness :
  let t := mkMem [[0x82; 0xFF; 0x80; 0; 0; 0; 0; 0; 0; 0; 1; 2; 3; 4]] [] [] false in
  (exists t1, readLength t1 (Z.land 0xFF 0x7F)
              = (beValue [0x80; 0; 0; 0; 0; 0; 0; 0] - 2 ^ 64, None,
                 (rwRead t1 8).2)
              /\ rwRead t 2 = ([0x82; 0xFF], None, t1))
  /\ Read 1 (mkConn t None) (make 512)
     = Some (Panic "makeslice: len out of range").
Proof.
  apply (@Read_negative_length memConn memTransport 0
           (mkMem [[0x82; 0xFF; 0x80; 0; 0; 0; 0; 0; 0; 0; 1; 2; 3; 4]] [] [] false)
           (mkMem [] [] [] false) 0x82 0xFF [0x80; 0; 0; 0; 0; 0; 0; 0]
           [1; 2; 3; 4] (make 512)).
  - right. reflexivity.
  - reflexivity.
  - reflexivity.
  - repeat constructor; unfold is_byte; lia.
  - vm_compute. discriminate.
  - reflexivity.
  - cbn [delivers].
    eexists. split; [vm_compute; reflexivity|].
    eexists. split; [vm_compute; reflexivity|].
    eexists. split; [vm_compute; reflexivity|reflexivity].
Defined.

Lemma Read_skips_control_witness :
  Read (length [[0x89; 0]; [0x8A; 0]] + 1)
    (receiving [[0x89; 0; 0x8A; 0] ++ helloFrame]) (make 5)
  = Read 1 (receiving [helloFrame]) (make 5)
  /\ sent (mkMem [helloFrame] [] [] false)
     = sent (mkMem [[0x89; 0; 0x8A; 0] ++ helloFrame] [] [] false).
Proof.
  apply (@Read_skips_control memConn memTransport memLaws 1
           [[0x89; 0]; [0x8A; 0]] (make 5)
           (mkMem [[0x89; 0; 0x8A; 0] ++ helloFrame] [] [] false)
           (mkMem [helloFrame] [] [] false)).
  - constructor; [|constructor; [|constructor]].
    + exists 0x89, 0. split; [reflexivity | left; reflexivity].
    + exists 0x8A, 0. split; [reflexivity | right; reflexivity].
  - cbn [delivers].
    eexists. split; [vm_compute; reflexivity|].
    eexists. split; [vm_compute; reflexivity|reflexivity].
Defined.

Lemma Read_buffered_frame_witness :
  Read 1
    (mkConn (bufio.mkRW (helloFrame ++ [0x81]) bufio.defaultBufSize None
               [tail helloFrame] [] [] false None) None) (make 5)
  = Some (Return (deliver
                    (bufio.mkRW [0x81] bufio.defaultBufSize None
                       [tail helloFrame] [] [] false None)
                    (make 5) helloText))
  /\ Read 1 (mkConn (bufio.hijacked [helloFrame ++ helloFrame]) None) (make 5)
     = Some (Return (deliver
                       (bufio.mkRW helloFrame bufio.defaultBufSize None []
                          [] [] false None)
                       (make 5) helloText)).
Proof.
  split.
  - apply (proj1 (Read_buffered_frame 0
                    (bufio.mkRW (helloFrame ++ [0x81]) bufio.defaultBufSize None
                       [tail helloFrame] [] [] false None)
                    0x81 0x85 [] sampleKey (drop 6 helloFrame) [0x81] (make 5) []
                    ltac:(left; reflexivity) ltac:(reflexivity)
                    ltac:(constructor) ltac:(vm_compute; discriminate)
                    ltac:(left; split; [reflexivity|split; [reflexivity|]];
                          vm_compute; discriminate)
                    ltac:(reflexivity))).
    reflexivity.
  - apply (proj1 (proj2 (Read_buffered_frame 0
                    (bufio.hijacked [helloFrame ++ helloFrame])
                    0x81 0x85 [] sampleKey (drop 6 helloFrame) helloFrame
                    (make 5) []
                    ltac:(left; reflexivity) ltac:(reflexivity)
                    ltac:(constructor) ltac:(vm_compute; discriminate)
                    ltac:(left; split; [reflexivity|split; [reflexivity|]];
                          vm_compute; discriminate)
                    ltac:(reflexivity)))).
    + reflexivity.
    + reflexivity.
    + reflexivity.
    + unfold bufio.hijacked, bufio.defaultBufSize. simpl. lia.
    + unfold bufio.hijacked, bufio.defaultBufSize. simpl. lia.
Defined.

